(** * AI Interview Coach: transcript aggregator and answer pipeline

  A shallow embedding of the two subsystems of the browser extension that
  carry its logic:

  - [CaptionGrabber] (content script): [processText], [isUIText] and
    [getRecentCaptions], which turn caption fragments into a bounded,
    time-stamped buffer and read a recency window out of it;
  - the background worker: [getRagContext], the five provider adapters,
    [handleGenerateResponse], [handleTestConnection] and the handlers of
    the knowledge base.

  JavaScript strings are sequences of UTF-16 code units.  The caption
  code inspects them unit by unit ([trim], [startsWith], [includes],
  regular expressions without the [u] flag), so there a string is a
  [list N] of code units. *)

From Stdlib Require Import ZArith NArith QArith Ascii String List Lia Bool.
From Stdlib Require DecimalString.
From stdpp Require Import base tactics option list strings.

Open Scope Z_scope.

(* ===================================================================== *)
(** ** Strings of code units                                              *)
(* ===================================================================== *)

Module JsString.

Abbreviation jsstring := (list N).

(** Code unit of an ASCII character, and of an ASCII literal. *)
Definition ch (a : ascii) : N := N_of_ascii a.

Definition lit (s : string) : jsstring := map ch (list_ascii_of_string s).

(** [WhiteSpace] and [LineTerminator] code points of ECMAScript, the
    ones [String.prototype.trim] strips.  All lie in the BMP, so each is
    one code unit. *)
Definition isWhiteSpace (c : N) : bool :=
  ((9 <=? c) && (c <=? 13) ||
   (c =? 32) || (c =? 160) || (c =? 5760) ||
   (8192 <=? c) && (c <=? 8202) ||
   (c =? 8232) || (c =? 8233) || (c =? 8239) || (c =? 8287) ||
   (c =? 12288) || (c =? 65279))%N.

Fixpoint trimStart (s : jsstring) : jsstring :=
  match s with
  | [] => []
  | c :: s' => if isWhiteSpace c then trimStart s' else s
  end.

Definition trimEnd (s : jsstring) : jsstring := rev (trimStart (rev s)).

Definition trim (s : jsstring) : jsstring := trimEnd (trimStart s).

(** [s.startsWith(t)] *)
Fixpoint startsWith (s t : jsstring) {struct t} : bool :=
  match t with
  | [] => true
  | b :: t' =>
      match s with
      | [] => false
      | a :: s' => (a =? b)%N && startsWith s' t'
      end
  end.

(** [s.includes(t)]: [t] occurs in [s] at some index. *)
Fixpoint includes (s t : jsstring) : bool :=
  startsWith s t ||
  match s with
  | [] => false
  | _ :: s' => includes s' t
  end.

(** [s === t] on strings. *)
Fixpoint strictEq (s t : jsstring) : bool :=
  match s, t with
  | [], [] => true
  | a :: s', b :: t' => (a =? b)%N && strictEq s' t'
  | _, _ => false
  end.

(** [parts.join(sep)] *)
Fixpoint join (sep : jsstring) (parts : list jsstring) : jsstring :=
  match parts with
  | [] => []
  | [p] => p
  | p :: rest => p ++ sep ++ join sep rest
  end.

(** A string is falsy exactly when it is empty. *)
Definition falsy (s : jsstring) : bool :=
  match s with [] => true | _ => false end.

End JsString.

Import JsString.

(* ===================================================================== *)
(** ** Regular expressions                                                *)
(* ===================================================================== *)

(** The fragment of the regular-expression language that [isUIText] uses,
  with a backtracking matcher in continuation-passing style.  Every
  pattern of the source starts with [^] and none has the [m] flag, so
  [RegExp.prototype.test] succeeds exactly when the rest of the pattern
  matches at index 0: [test] below is that anchored match. *)

Module Regex.

Inductive regex : Type :=
| Chr (c : N)                        (* a pattern character            *)
| ChrI (c : N)                       (* the same under the [i] flag    *)
| Range (lo hi : N)                  (* a class [[lo-hi]]              *)
| Cat (r1 r2 : regex)
| Alt (r1 r2 : regex)
| Repeat (r : regex) (lo extra : nat) (* r{lo,lo+extra}, greedy        *)
| Eps
| Eoi.                               (* [$]: end of input              *)

(** [Canonicalize] of a non-unicode, case-insensitive pattern maps a
    code unit to its upper case, except that a unit >= 128 is never
    mapped to one < 128.  The patterns here only hold ASCII characters,
    and an input unit is canonically equal to an ASCII letter exactly
    when it is that letter in either case. *)
Definition canon (c : N) : N :=
  if ((97 <=? c) && (c <=? 122))%N then (c - 32)%N else c.

Fixpoint matchk (r : regex) (s : jsstring) (k : jsstring -> bool) {struct r} : bool :=
  match r with
  | Chr c =>
      match s with
      | x :: s' => (x =? c)%N && k s'
      | [] => false
      end
  | ChrI c =>
      match s with
      | x :: s' => (canon x =? canon c)%N && k s'
      | [] => false
      end
  | Range lo hi =>
      match s with
      | x :: s' => (lo <=? x)%N && (x <=? hi)%N && k s'
      | [] => false
      end
  | Cat r1 r2 => matchk r1 s (fun s' => matchk r2 s' k)
  | Alt r1 r2 => matchk r1 s k || matchk r2 s k
  | Repeat r' lo extra =>
      (fix mandatory (n : nat) (s : jsstring) {struct n} : bool :=
         match n with
         | S n' => matchk r' s (fun s' => mandatory n' s')
         | O =>
             (fix optional (m : nat) (s : jsstring) {struct m} : bool :=
                match m with
                | S m' => matchk r' s (fun s' => optional m' s') || k s
                | O => k s
                end) extra s
         end) lo s
  | Eps => k s
  | Eoi => match s with [] => k s | _ => false end
  end.

Definition test (r : regex) (s : jsstring) : bool := matchk r s (fun _ => true).

(** Pattern text, character by character. *)
Definition str (p : string) : regex :=
  fold_right (fun a r => Cat (Chr (ch a)) r) Eps (list_ascii_of_string p).

Definition strI (p : string) : regex :=
  fold_right (fun a r => Cat (ChrI (ch a)) r) Eps (list_ascii_of_string p).

(** [(r1|r2|...)]; with no alternative, a pattern that never matches. *)
Fixpoint alts (rs : list regex) : regex :=
  match rs with
  | [] => Cat Eoi (Chr 0)
  | [r] => r
  | r :: rs' => Alt r (alts rs')
  end.

End Regex.

(* ===================================================================== *)
(** ** The caption grabber                                                *)
(* ===================================================================== *)

Module Grabber.

Import Regex.

(** A buffer item [{ text, time }]; [time] is a [Date.now()] reading in
    milliseconds. *)
Record CaptionEntry : Type := { text : jsstring; time : Z }.

(** The fields of a [CaptionGrabber] that the caption logic reads or
    writes.  ([observer], [captionNode] and [platform] belong to the DOM
    side.) *)
Record CaptionGrabber : Type := { buffer : list CaptionEntry; isListening : bool }.

(** [new CaptionGrabber()] *)
Definition constructor : CaptionGrabber := {| buffer := []; isListening := false |}.

Definition set_buffer (g : CaptionGrabber) (b : list CaptionEntry) : CaptionGrabber :=
  {| buffer := b; isListening := isListening g |}.

Definition digit : regex := Range (ch "0") (ch "9").

(** The [uiPatterns] array of [isUIText], in source order. *)
Definition uiPatterns : list regex :=
  [ Cat (Repeat digit 1 1) (Cat (Chr (ch ":")) (Repeat digit 2 0));
    Cat (alts [strI "AM"; strI "PM"]) Eoi;
    Cat (alts [strI "Today"; strI "Yesterday"]) Eoi;
    alts [strI "Turn on"; strI "Turn off"; strI "Enable"; strI "Disable"];
    alts [strI "Mute"; strI "Unmute"; strI "Share"; strI "Stop"; strI "Leave"; strI "Join"];
    Cat (Repeat (Range (ch "A") (ch "Z")) 2 1) Eoi;
    strI "Live captions";
    str "..." ].

(** [uiPatterns.some(pattern => pattern.test(text.trim()))] *)
Definition isUIText (text : jsstring) : bool :=
  existsb (fun pattern => test pattern (trim text)) uiPatterns.

(** [this.buffer.push(e)] *)
Definition push (b : list CaptionEntry) (e : CaptionEntry) : list CaptionEntry := b ++ [e].

(** [this.buffer.shift()] *)
Definition shift (b : list CaptionEntry) : list CaptionEntry :=
  match b with
  | [] => []
  | _ :: b' => b'
  end.

(** Case D of [processText]: push, then keep the last 25 items. *)
Definition appendEntry (now : Z) (text : jsstring) (g : CaptionGrabber) : CaptionGrabber :=
  let b := push (buffer g) {| text := text; time := now |} in
  set_buffer g (if (25 <? length b)%nat then shift b else b).

(** [processText(rawText)], where [now] is what [Date.now()] returns
    during the call (it is read once on every path).  The result is the
    grabber after the call.  [rawText] is the text content of a node; a
    [null] content is rejected by the first guard like the empty string.
    [lastEntry] aliases the array's last element, so the two assignments
    of case A update the buffer at index [length - 1]. *)
Definition processText (now : Z) (rawText : jsstring) (g : CaptionGrabber) : CaptionGrabber :=
  if falsy rawText then g else
  let text := trim rawText in
  if (length text <? 2)%nat then g else
  if isUIText text then g else
  if (0 <? length (buffer g))%nat then
    let i := (length (buffer g) - 1)%nat in
    match buffer g !! i with
    | Some lastEntry =>
        let lastText := lastEntry.(Grabber.text) in
        if startsWith text lastText || includes text lastText then
          set_buffer g (<[i := {| text := text; time := now |}]> (buffer g))
        else if includes lastText text then g
        else if strictEq lastText text then g
        else appendEntry now text g
    | None => g (* not reached: [i] is in range, see [last_entry_defined] *)
    end
  else appendEntry now text g.

(** [getRecentCaptions()], with [now] the [Date.now()] reading; returns
    the joined text and the grabber after the call. *)
Definition getRecentCaptions (now : Z) (g : CaptionGrabber) : jsstring * CaptionGrabber :=
  let activeLines := filter (fun item => now - time item < 90000) (buffer g) in
  (join (lit (String "010" EmptyString)) (map text activeLines), g).

End Grabber.

(* ===================================================================== *)
(** ** JavaScript values in the background worker                         *)
(* ===================================================================== *)

(** The worker handles data it does not control: stored settings and the
  JSON bodies of HTTP responses.  They are modelled as untyped values
  with the property reads, coercions and exceptions of the language.
  Text in the worker is only concatenated and tested for emptiness, so a
  string is kept as a [string] (the bytes of its UTF-8 form). *)

Module Js.

Open Scope string_scope.

Inductive number : Type :=
| NaN
| Infinity (negative : bool)
| Finite (q : Q).

#[warnings="-register-all"] Inductive value : Type :=
| Undefined
| Null
| Bool (b : bool)
| Num (n : number)
| Str (s : string)
| Arr (items : list value)
| Obj (props : list (string * value)).

(** A thrown [Error] object: its [name] and [message]. *)
Record Error : Type := { name : string; message : string }.

(** Outcome of evaluating an expression or awaiting a promise. *)
Inductive completion (A : Type) : Type :=
| Normal (a : A)
| Throw (e : Error).
Arguments Normal {A} a.
Arguments Throw {A} e.

Definition TypeError (msg : string) : Error := {| name := "TypeError"; message := msg |}.

(** What the runtime supplies and the sources do not define: number
    formatting and parsing, [JSON.stringify], [encodeURIComponent]
    (which throws [URIError] on a lone surrogate) and
    [chrome.runtime.getURL("")]. *)
Record Runtime : Type := {
  NumberToString : number -> string;
  StringToNumber : string -> number;
  JSON_stringify : value -> string;
  encodeURIComponent : string -> completion string;
  extensionURL : string
}.

Definition nullish (v : value) : bool :=
  match v with Undefined | Null => true | _ => false end.

(** [ToBoolean] *)
Definition truthy (v : value) : bool :=
  match v with
  | Undefined | Null => false
  | Bool b => b
  | Num NaN => false
  | Num (Infinity _) => true
  | Num (Finite q) => negb (Qeq_bool q 0)
  | Str s => negb (String.eqb s EmptyString)
  | Arr _ | Obj _ => true
  end.

(** [a || b] *)
Definition or_else (a b : value) : value := if truthy a then a else b.

Fixpoint assoc (key : string) (props : list (string * value)) : option value :=
  match props with
  | [] => None
  | (k, v) :: rest => if String.eqb k key then Some v else assoc key rest
  end.

(** An array index written as a property key. *)
Definition index_of_key (key : string) : option nat :=
  if String.eqb key "0" then Some 0%nat else None.

(** [v.key] and [v[key]] for the keys this code reads.  Own properties
    of objects; for arrays and strings the index [0] and nothing else:
    the code reads no [length], and inherited members ([constructor],
    [toString], ...) are not modelled.  The unit a string yields at index
    0 is only ever read for a property it does not have.  Reading a
    property of [undefined] or [null] throws, with V8's message. *)
Definition get (v : value) (key : string) : completion value :=
  match v with
  | Undefined =>
      Throw (TypeError ("Cannot read properties of undefined (reading '" ++ key ++ "')"))
  | Null =>
      Throw (TypeError ("Cannot read properties of null (reading '" ++ key ++ "')"))
  | Obj props => Normal (default Undefined (assoc key props))
  | Arr items =>
      match index_of_key key with
      | Some i => Normal (default Undefined (items !! i))
      | None => Normal Undefined
      end
  | Str s =>
      match index_of_key key, s with
      | Some _, String c _ => Normal (Str (String c EmptyString))
      | _, _ => Normal Undefined
      end
  | Bool _ | Num _ => Normal Undefined
  end.

(** [v?.key] *)
Definition getOpt (v : value) (key : string) : completion value :=
  if nullish v then Normal Undefined else get v key.

(** [obj.key = x] on an object literal built by this code. *)
Definition set (v : value) (key : string) (x : value) : value :=
  match v with
  | Obj props => Obj (props ++ [(key, x)])
  | _ => v
  end.

(** Whether [ToPrimitive] returns on [v].  The values here come from
    JSON and from storage and hold no function.  An object is converted
    by the inherited [Object.prototype.toString] unless an own property
    [toString] hides it: that property is not callable, and [valueOf],
    own or inherited, gives no primitive either, so the conversion throws
    a [TypeError].  An array is converted by [join], which converts every
    item that is not [undefined] or [null]. *)
Fixpoint convertible (v : value) : bool :=
  match v with
  | Arr items => forallb convertible items
  | Obj props =>
      match assoc "toString" props with
      | Some _ => false
      | None => true
      end
  | _ => true
  end.

Definition notConvertible : Error :=
  TypeError "Cannot convert object to primitive value".

Section WithRuntime.

Context (rt : Runtime).

(** The text of a value that converts to a string. *)
Fixpoint toString (v : value) : string :=
  match v with
  | Undefined => "undefined"
  | Null => "null"
  | Bool true => "true"
  | Bool false => "false"
  | Num n => NumberToString rt n
  | Str s => s
  | Arr items =>
      String.concat ","
        (List.map (fun x => if nullish x then EmptyString else toString x) items)
  | Obj _ => "[object Object]"
  end.

(** [ToString], as applied by template literals, by [+] with a string
    operand, by property keys and by the arguments of
    [encodeURIComponent] and of DOM setters. *)
Definition ToString (v : value) : completion string :=
  if convertible v then Normal (toString v) else Throw notConvertible.

(** The number of a value that converts to a primitive, objects and
    arrays going through their string form. *)
Definition toNumber (v : value) : number :=
  match v with
  | Undefined => NaN
  | Null => Finite 0
  | Bool true => Finite 1
  | Bool false => Finite 0
  | Num n => n
  | Str s => StringToNumber rt s
  | Arr _ | Obj _ => StringToNumber rt (toString v)
  end.

(** [ToNumber], as applied by [>=]. *)
Definition ToNumber (v : value) : completion number :=
  if convertible v then Normal (toNumber v) else Throw notConvertible.

End WithRuntime.

(** [x >= y] on numbers; false when either is [NaN]. *)
Definition number_ge (x y : number) : bool :=
  match x, y with
  | NaN, _ | _, NaN => false
  | Infinity false, _ => true
  | Infinity true, Infinity true => true
  | Infinity true, _ => false
  | Finite _, Infinity true => true
  | Finite _, Infinity false => false
  | Finite p, Finite q => Qle_bool q p
  end.

End Js.

(* ===================================================================== *)
(** ** The background worker                                              *)
(* ===================================================================== *)

Module Worker.

Import Js.
Open Scope string_scope.

(** *** Network and message port *)

Record Request : Type := {
  url : string;
  method : string;
  headers : list (string * string);
  body : option string
}.

(** A [Response]: [text] and [json] are what awaiting [response.text()]
    and [response.json()] gives (the latter rejects on a body that is
    not JSON). *)
Record Response : Type := {
  ok : bool;
  status : Z;
  statusText : string;
  text : completion string;
  json : completion value
}.

(** The outside world during one run of a handler: what awaiting
    [fetch(request)] gives.  A rejected promise (DNS failure, refused
    connection, a timeout reported by the transport) is a [Throw]. *)
Definition Network : Type := Request -> completion Response.

(** Effects of a run: the requests sent with [fetch], in order, and the
    values passed to [sendResponse], in order. *)
Record World : Type := { fetched : list Request; sent : list value }.

Definition initial : World := {| fetched := []; sent := [] |}.

(** Computations of the worker: state passing over [World], with
    exceptions. *)
Definition M (A : Type) : Type := World -> completion A * World.

Definition ret {A} (a : A) : M A := fun w => (Normal a, w).

Definition bind {A B} (m : M A) (f : A -> M B) : M B :=
  fun w =>
    match m w with
    | (Normal a, w') => f a w'
    | (Throw e, w') => (Throw e, w')
    end.

Definition lift {A} (c : completion A) : M A := fun w => (c, w).

(** [try { body } catch (err) { handler }] *)
Definition try_catch {A} (body : M A) (handler : Error -> M A) : M A :=
  fun w =>
    match body w with
    | (Normal a, w') => (Normal a, w')
    | (Throw e, w') => handler e w'
    end.

Declare Scope worker_scope.
Delimit Scope worker_scope with worker.
Notation "x <- m ;; f" := (bind m (fun x => f))
  (at level 90, m at next level, right associativity) : worker_scope.
Open Scope worker_scope.

Definition sendResponse (v : value) : M unit :=
  fun w => (Normal tt, {| fetched := fetched w; sent := sent w ++ [v] |}).

(** The double quote and the line feed. *)
Definition dq : string := String "034" EmptyString.
Definition nl : string := String "010" EmptyString.

(** *** Configuration *)

Definition SERVER_URL : string := "http://localhost:8000".
Definition ENABLED : bool := true.
Definition TOP_K : number := Finite 3.
Definition MIN_SIMILARITY : number := Finite (1 # 2).

Definition PROVIDERS_CONFIG : value :=
  Obj [
    ("pollinations", Obj [
       ("name", Str "Pollinations (Free)");
       ("endpoint", Str "https://text.pollinations.ai/");
       ("requiresKey", Bool false) ]);
    ("openai", Obj [
       ("name", Str "OpenAI");
       ("endpoint", Str "https://api.openai.com/v1/chat/completions");
       ("defaultModel", Str "gpt-4o-mini");
       ("requiresKey", Bool true) ]);
    ("gemini", Obj [
       ("name", Str "Google Gemini");
       ("endpoint", Str "https://generativelanguage.googleapis.com/v1beta/models/{model}:generateContent");
       ("defaultModel", Str "models/gemini-2.5-flash");
       ("requiresKey", Bool true) ]);
    ("openrouter", Obj [
       ("name", Str "OpenRouter");
       ("endpoint", Str "https://openrouter.ai/api/v1/chat/completions");
       ("defaultModel", Str "openai/gpt-oss-20b:free");
       ("requiresKey", Bool true) ]);
    ("groq", Obj [
       ("name", Str "Groq");
       ("endpoint", Str "https://api.groq.com/openai/v1/chat/completions");
       ("defaultModel", Str "llama-3.3-70b-versatile");
       ("requiresKey", Bool true) ]) ].

(** *** Prompt text *)

Definition unlines (ls : list string) : string :=
  String.concat EmptyString (List.map (fun l => l ++ nl) ls).

(** The template literal that initialises [systemPrompt]. *)
Definition promptPreamble : string :=
  nl ++ unlines [
    "You are an expert MAINFRAME interview coach helping a candidate ace their IBM z/OS mainframe job interview.";
    "Generate the PERFECT spoken answer for mainframe-related questions.";
    EmptyString;
    "🖥️ MAINFRAME EXPERTISE AREAS:";
    "- COBOL: File handling, PERFORM, EVALUATE, STRING/UNSTRING, COMP/COMP-3, copybooks";
    "- JCL: DD statements, PROCs, COND/IF-THEN-ELSE, GDGs, utilities (IEBGENER, SORT, IDCAMS)";
    "- CICS: COMMAREA, BMS maps, EXEC CICS commands, pseudo-conversational, channels/containers";
    "- DB2: BIND, EXPLAIN, cursors, SQLCODE, DBRM, static vs dynamic SQL, locking";
    "- VSAM: KSDS/ESDS/RRDS, DEFINE CLUSTER, REPRO, alternate indexes";
    "- z/OS: SPOOL, JES2/JES3, initiators, RACF, SMS, catalogs";
    EmptyString;
    "🎯 RESPONSE RULES:";
    "1. Keep answers 2-4 sentences MAX - be concise and technical";
    "2. Lead with the KEY technical point, then support briefly";
    "3. Use specific mainframe metrics (" ++ dq ++ "processed 5M records in batch window" ++ dq ++ ", " ++ dq ++ "reduced CICS response to under 1 second" ++ dq ++ ")";
    "4. For troubleshooting questions: Problem → Analysis tool used → Solution";
    "5. Always mention the specific utility, command, or technique by name";
    EmptyString;
    "💡 ANSWER STRATEGY:";
    "- KNOWLEDGE BASE answers take TOP PRIORITY - use them verbatim when relevant";
    "- Show deep z/OS understanding - refer to system internals when appropriate";
    "- Mention specific tools: SDSF, File-AID, Xpediter, Abend-AID, SPUFI, QMF";
    "- Reference common abends and how to resolve them (S0C7, S0C4, S322, S806, S913)";
    "- For COBOL: mention paragraph names, WORKING-STORAGE structure, 88-levels";
    EmptyString;
    "🚫 AVOID:";
    "- Vague answers like " ++ dq ++ "I worked with batch jobs" ++ dq;
    "- Confusing COBOL with other languages syntax";
    "- Mixing up JCL parameters";
    "- Generic programming answers that don't show mainframe depth";
    EmptyString;
    "✅ MAINFRAME ANSWER PATTERNS:";
    "- " ++ dq ++ "For [problem], I use [specific utility/command] because [technical reason]" ++ dq;
    "- " ++ dq ++ "The SQLCODE -[number] indicates [issue], so I would check [solution]" ++ dq;
    "- " ++ dq ++ "In COBOL, I handle this using [technique] in the [division/section]" ++ dq;
    "- " ++ dq ++ "The JCL COND parameter [value] means [explanation], so [result]" ++ dq;
    "- " ++ dq ++ "For VSAM, I'd use IDCAMS [command] with [parameters]" ++ dq ].

Definition rule : string := "═══════════════════════════════════════".

(** The block appended when [ragContext] is not empty. *)
Definition knowledgeBaseBlock (ragContext : string) : string :=
  nl ++ unlines [
    rule;
    "📚 YOUR KNOWLEDGE BASE (USE THIS FIRST!):";
    ragContext;
    rule ].

(** The block appended last, around the recent captions. *)
Definition questionBlock (recentCaptions : string) : string :=
  nl ++ unlines [
    rule;
    "🎤 INTERVIEWER JUST ASKED:";
    recentCaptions;
    rule;
    EmptyString;
    "Generate the IDEAL spoken answer now. Be concise, confident, and specific.";
    "If knowledge base has relevant info, weave it in naturally." ] ++ "  ".

Definition buildSystemPrompt (ragContext recentCaptions : string) : string :=
  promptPreamble
  ++ (if truthy (Str ragContext) then knowledgeBaseBlock ragContext else EmptyString)
  ++ questionBlock recentCaptions.

(** *** Array callbacks that may throw *)

Definition cbind {A B} (c : completion A) (f : A -> completion B) : completion B :=
  match c with
  | Normal a => f a
  | Throw e => Throw e
  end.

(** [items.filter(p)] *)
Fixpoint filterC {A} (p : A -> completion bool) (items : list A) : completion (list A) :=
  match items with
  | [] => Normal []
  | x :: rest =>
      cbind (p x) (fun keep =>
      cbind (filterC p rest) (fun kept =>
      Normal (if keep then x :: kept else kept)))
  end.

(** [items.map(f)] *)
Fixpoint mapC {A B} (f : A -> completion B) (items : list A) : completion (list B) :=
  match items with
  | [] => Normal []
  | x :: rest =>
      cbind (f x) (fun y =>
      cbind (mapC f rest) (fun ys =>
      Normal (y :: ys)))
  end.

(** The receiver of an [Array.prototype] method call [expr.method(...)]:
    the items of an array; anything else has no such method. *)
Definition arrayReceiver (v : value) (expr method : string) : completion (list value) :=
  match v with
  | Arr items => Normal items
  | Undefined | Null => cbind (get v method) (fun _ => Normal [])
  | _ => Throw (TypeError (expr ++ "." ++ method ++ " is not a function"))
  end.

(** [v === "s"] *)
Definition strictEqStr (v : value) (s : string) : bool :=
  match v with
  | Str x => String.eqb x s
  | _ => false
  end.

(** [v !== false] *)
Definition strictNeqFalse (v : value) : bool :=
  match v with
  | Bool false => false
  | _ => true
  end.

(** [a || b], with [b] evaluated only when [a] is falsy. *)
Definition orElseM (a : value) (b : M value) : M value :=
  if truthy a then ret a else b.

Section Handlers.

Context (rt : Runtime) (net : Network).

(** [await fetch(request)] *)
Definition fetch (request : Request) : M Response :=
  fun w => (net request, {| fetched := fetched w ++ [request]; sent := sent w |}).

(** *** Retrieval *)

(** The request of [getRagContext] and [handleRagSearch]. *)
Definition searchRequest (query : string) : Request :=
  {| url := SERVER_URL ++ "/search";
     method := "POST";
     headers := [("Content-Type", "application/json")];
     body := Some (JSON_stringify rt (Obj [("query", Str query); ("limit", Num TOP_K)])) |}.

(** [r => r.similarity >= RAG_CONFIG.MIN_SIMILARITY] *)
Definition aboveThreshold (r : value) : completion bool :=
  cbind (get r "similarity") (fun similarity =>
  cbind (ToNumber rt similarity) (fun n =>
  Normal (number_ge n MIN_SIMILARITY))).

(** [r => `[${r.title}]: ${r.content}`] *)
Definition formatChunk (r : value) : completion string :=
  cbind (get r "title") (fun title =>
  cbind (ToString rt title) (fun titleText =>
  cbind (get r "content") (fun content =>
  cbind (ToString rt content) (fun contentText =>
  Normal ("[" ++ titleText ++ "]: " ++ contentText))))).

(** [data.results.filter(...).map(...).join("\n\n")] *)
Definition relevantChunks (data : value) : completion string :=
  cbind (get data "results") (fun results =>
  cbind (arrayReceiver results "data.results" "filter") (fun items =>
  cbind (filterC aboveThreshold items) (fun kept =>
  cbind (mapC formatChunk kept) (fun blocks =>
  Normal (String.concat (nl ++ nl) blocks))))).

Definition getRagContext (query : string) : M string :=
  if negb ENABLED then ret EmptyString else
  try_catch
    (response <- fetch (searchRequest query) ;;
     if negb (ok response) then ret EmptyString else
     data <- lift (json response) ;;
     lift (relevantChunks data))
    (fun err => ret EmptyString).

(** *** Provider adapters *)

Definition errorResult (msg : string) : value := Obj [("error", Str msg)].
Definition textResult (v : value) : value := Obj [("text", v)].

Definition callPollinations (systemPrompt : string) (model : value) : M value :=
  encodedPrompt <- lift (encodeURIComponent rt systemPrompt) ;;
  modelText <- lift (ToString rt model) ;;
  let url := "https://text.pollinations.ai/" ++ encodedPrompt ++ "?model=" ++ modelText in
  response <- fetch {| url := url; method := "GET";
                       headers := [("Accept", "text/plain")]; body := None |} ;;
  if negb (ok response) then
    ret (errorResult ("Pollinations Error: "
                      ++ NumberToString rt (Finite (inject_Z (status response)))
                      ++ " " ++ statusText response))
  else
    text <- lift (text response) ;;
    ret (textResult (Str text)).

(** [JSON.stringify({ model, messages: [{ role: "system", content }] })] *)
Definition chatBody (model : value) (systemPrompt : string) : string :=
  JSON_stringify rt
    (Obj [("model", model);
          ("messages", Arr [Obj [("role", Str "system"); ("content", Str systemPrompt)]])]).

Definition bearerHeaders (apiKey : value) : completion (list (string * string)) :=
  cbind (ToString rt apiKey) (fun keyText =>
  Normal [("Content-Type", "application/json");
          ("Authorization", "Bearer " ++ keyText)]).

(** [data.choices[0].message.content] *)
Definition firstChoiceContent (data : value) : completion value :=
  cbind (get data "choices") (fun choices =>
  cbind (get choices "0") (fun choice =>
  cbind (get choice "message") (fun message =>
  get message "content"))).

(** The body shared by [callOpenAI] and [callGroq], which differ in the
    endpoint and in the prefix of the error text. *)
Definition callChat (endpoint prefix : string) (apiKey model : value) (systemPrompt : string)
  : M value :=
  authorized <- lift (bearerHeaders apiKey) ;;
  response <- fetch {| url := endpoint; method := "POST";
                       headers := authorized;
                       body := Some (chatBody model systemPrompt) |} ;;
  data <- lift (json response) ;;
  error <- lift (get data "error") ;;
  if truthy error then
    msg <- lift (get error "message") ;;
    msgText <- lift (ToString rt msg) ;;
    ret (errorResult (prefix ++ msgText))
  else
    content <- lift (firstChoiceContent data) ;;
    ret (textResult content).

Definition callOpenAI (apiKey model : value) (systemPrompt : string) : M value :=
  callChat "https://api.openai.com/v1/chat/completions" "OpenAI Error: "
           apiKey model systemPrompt.

Definition callGroq (apiKey model : value) (systemPrompt : string) : M value :=
  callChat "https://api.groq.com/openai/v1/chat/completions" "Groq Error: "
           apiKey model systemPrompt.

(** [model.replace(/^models\//, '')] *)
Definition stripModelsPrefix (model : value) : completion string :=
  match model with
  | Str m =>
      Normal (if String.prefix "models/" m
              then String.substring 7 (String.length m - 7) m
              else m)
  | Undefined | Null => cbind (get model "replace") (fun _ => Normal EmptyString)
  | _ => Throw (TypeError "model.replace is not a function")
  end.

(** [data.candidates[0]?.content?.parts?.[0]?.text] *)
Definition firstCandidateText (candidates : value) : completion value :=
  cbind (get candidates "0") (fun candidate =>
  cbind (getOpt candidate "content") (fun content =>
  cbind (getOpt content "parts") (fun parts =>
  cbind (getOpt parts "0") (fun part =>
  getOpt part "text")))).

(** [data.candidates[0].content.parts[0].text] *)
Definition firstCandidateTextStrict (data : value) : completion value :=
  cbind (get data "candidates") (fun candidates =>
  cbind (get candidates "0") (fun candidate =>
  cbind (get candidate "content") (fun content =>
  cbind (get content "parts") (fun parts =>
  cbind (get parts "0") (fun part =>
  get part "text"))))).

Definition callGemini (apiKey model : value) (systemPrompt : string) : M value :=
  modelName <- lift (stripModelsPrefix model) ;;
  keyText <- lift (ToString rt apiKey) ;;
  let endpoint :=
    "https://generativelanguage.googleapis.com/v1beta/models/" ++ modelName
    ++ ":generateContent?key=" ++ keyText in
  response <- fetch {| url := endpoint; method := "POST";
                       headers := [("Content-Type", "application/json")];
                       body := Some (JSON_stringify rt
                         (Obj [("contents", Arr [Obj [("parts", Arr [Obj [("text", Str systemPrompt)]])]]);
                               ("generationConfig",
                                Obj [("temperature", Num (Finite (7 # 10)));
                                     ("maxOutputTokens", Num (Finite 1024))])])) |} ;;
  data <- lift (json response) ;;
  error <- lift (get data "error") ;;
  if truthy error then
    msg <- lift (get error "message") ;;
    msgText <- lift (ToString rt msg) ;;
    ret (errorResult ("Gemini Error: " ++ msgText))
  else
    candidates <- lift (get data "candidates") ;;
    found <- (if truthy candidates then lift (firstCandidateText candidates) else ret candidates) ;;
    if truthy found then
      text <- lift (firstCandidateTextStrict data) ;;
      ret (textResult text)
    else
      ret (errorResult "Gemini: No response generated").

Definition callOpenRouter (apiKey model : value) (systemPrompt : string) : M value :=
  authorized <- lift (bearerHeaders apiKey) ;;
  response <- fetch {| url := "https://openrouter.ai/api/v1/chat/completions"; method := "POST";
                       headers := authorized
                                  ++ [("HTTP-Referer", extensionURL rt);
                                      ("X-Title", "AI Interview Coach")];
                       body := Some (JSON_stringify rt
                         (Obj [("model", model);
                               ("messages",
                                Arr [Obj [("role", Str "system");
                                          ("content", Str "You are an expert interview coach. Answer concisely and professionally.")];
                                     Obj [("role", Str "user"); ("content", Str systemPrompt)]])])) |} ;;
  data <- lift (json response) ;;
  error <- lift (get data "error") ;;
  if truthy error then
    msg <- lift (get error "message") ;;
    msgText <- lift (if truthy msg then ToString rt msg else Normal (JSON_stringify rt error)) ;;
    ret (errorResult ("OpenRouter Error: " ++ msgText))
  else
    choices <- lift (get data "choices") ;;
    found <- (if truthy choices then
                choice <- lift (get choices "0") ;;
                message <- lift (getOpt choice "message") ;;
                lift (getOpt message "content")
              else ret choices) ;;
    if truthy found then
      content <- lift (firstChoiceContent data) ;;
      ret (textResult content)
    else
      ret (errorResult "OpenRouter: No response generated").

(** *** The generation handler *)

(** The message payload, as the sidebar builds it. *)
Record Payload : Type := { recentCaptions : string }.

(** The [switch (provider)] of [handleGenerateResponse]. *)
Definition dispatch (provider apiKey model : value) (systemPrompt : string) : M value :=
  if strictEqStr provider "pollinations" then callPollinations systemPrompt model
  else if strictEqStr provider "gemini" then callGemini apiKey model systemPrompt
  else if strictEqStr provider "openrouter" then callOpenRouter apiKey model systemPrompt
  else if strictEqStr provider "groq" then callGroq apiKey model systemPrompt
  else callOpenAI apiKey model systemPrompt.

(** Steps 3 and 4 of [handleGenerateResponse]: build the system prompt
    around [ragContext], call the provider inside the [try] block and
    send the result. *)
Definition respond (provider apiKey model : value) (ragContext : string) (payload : Payload)
  : M unit :=
  let systemPrompt := buildSystemPrompt ragContext (recentCaptions payload) in
  try_catch
    (response <- dispatch provider apiKey model systemPrompt ;;
     marked <- (if truthy (Str ragContext) then
                  text <- lift (get response "text") ;;
                  ret (if truthy text then set response "usedRag" (Bool true) else response)
                else ret response) ;;
     sendResponse marked)
    (fun err => sendResponse (errorResult ("Network Error: " ++ message err))).

(** [handleGenerateResponse(payload, sendResponse)], after
    [chrome.storage.local.get] has resolved to the object with own
    properties [stored].  A result [Throw e] is a rejection of the promise
    the handler returns, which nothing awaits. *)
Definition handleGenerateResponse (stored : list (string * value)) (payload : Payload) : M unit :=
  let settings := Obj stored in
  storedProvider <- lift (get settings "provider") ;;
  let provider := or_else storedProvider (Str "pollinations") in
  storedModel <- lift (get settings "model") ;;
  model <- orElseM storedModel
             (key <- lift (ToString rt provider) ;;
              config <- lift (get PROVIDERS_CONFIG key) ;;
              defaultModel <- lift (getOpt config "defaultModel") ;;
              ret (or_else defaultModel (Str "openai"))) ;;
  key <- lift (ToString rt provider) ;;
  providerConfig <- lift (get PROVIDERS_CONFIG key) ;;
  storedRag <- lift (get settings "ragEnabled") ;;
  let ragEnabled := strictNeqFalse storedRag in
  storedKeys <- lift (get settings "apiKeys") ;;
  let apiKeys := or_else storedKeys (Obj []) in
  key <- lift (ToString rt provider) ;;
  keyOfProvider <- lift (get apiKeys key) ;;
  let apiKey := or_else keyOfProvider (Str EmptyString) in
  requiresKey <- lift (get providerConfig "requiresKey") ;;
  if truthy requiresKey && negb (truthy apiKey) then
    name <- lift (get providerConfig "name") ;;
    nameText <- lift (ToString rt name) ;;
    sendResponse (errorResult ("No API Key found for " ++ nameText
                               ++ ". Please open extension settings."))
  else
    ragContext <- (if ragEnabled then getRagContext (recentCaptions payload)
                   else ret EmptyString) ;;
    respond provider apiKey model ragContext payload.

End Handlers.

End Worker.

(* ===================================================================== *)
(** ** The specification's wording                                        *)
(* ===================================================================== *)

(** Definitions written after the specification's text, to be compared
    with the code above. *)

Module Spec.

Import Grabber.

(** The four outcomes of the aggregator's merge step. *)
Inductive MergeDecision : Type :=
| IncrementalUpdate
| StalePartial
| Duplicate
| NewUtterance.

(** The case order of the merge step, on the last entry's text and the
    incoming fragment. *)
Definition mergeDecision (lastText fragment : jsstring) : MergeDecision :=
  if startsWith fragment lastText || includes fragment lastText then IncrementalUpdate
  else if includes lastText fragment then StalePartial
  else if strictEq fragment lastText then Duplicate
  else NewUtterance.

(** Evict the oldest entry once the cap of 25 is exceeded. *)
Definition evict (b : list CaptionEntry) : list CaptionEntry :=
  if (25 <? length b)%nat then drop 1 b else b.

(** What each outcome does to the buffer. *)
Definition applyDecision (d : MergeDecision) (now : Z) (fragment : jsstring)
    (b : list CaptionEntry) : list CaptionEntry :=
  match d with
  | IncrementalUpdate => removelast b ++ [{| text := fragment; time := now |}]
  | StalePartial | Duplicate => b
  | NewUtterance => evict (b ++ [{| text := fragment; time := now |}])
  end.

(** The UI-noise classes, on the trimmed fragment.  Letters of the
    listed words match in either case. *)
Definition foldCase (t : jsstring) : jsstring := map Regex.canon t.

Definition equalsI (t : jsstring) (word : string) : bool :=
  strictEq (foldCase t) (foldCase (lit word)).

Definition startsWithI (t : jsstring) (word : string) : bool :=
  startsWith (foldCase t) (foldCase (lit word)).

Definition isDigit (c : N) : bool := ((48 <=? c) && (c <=? 57))%N.

Definition isUpper (c : N) : bool := ((65 <=? c) && (c <=? 90))%N.

(** [hours] digits, a colon and two digits, at the start. *)
Definition clockAt (hours : nat) (t : jsstring) : bool :=
  (length (take hours t) =? hours)%nat
  && forallb isDigit (take hours t)
  && startsWith (drop hours t) (lit ":")
  && (length (take 2 (drop (S hours) t)) =? 2)%nat
  && forallb isDigit (take 2 (drop (S hours) t)).

Definition controlVerbs : list string :=
  ["Turn on"; "Turn off"; "Enable"; "Disable";
   "Mute"; "Unmute"; "Share"; "Stop"; "Leave"; "Join"]%string.

Definition isNoise (t : jsstring) : bool :=
  (clockAt 1 t || clockAt 2 t)
  || (equalsI t "AM" || equalsI t "PM")
  || (equalsI t "Today" || equalsI t "Yesterday")
  || existsb (startsWithI t) controlVerbs
  || (((length t =? 2)%nat || (length t =? 3)%nat) && forallb isUpper t)
  || startsWithI t "Live captions"
  || startsWith t (lit "...").

(** [recentWindow(maxAgeMs)]: the entries observed less than [maxAgeMs]
    before [now], in buffer order, joined with newlines. *)
Definition recentWindow (maxAgeMs now : Z) (b : list CaptionEntry) : jsstring :=
  join (lit (String "010" EmptyString))
       (map text (filter (fun e => now - time e < maxAgeMs) b)).

(** A retrieved snippet [{ title, content, similarity }]. *)
Record RetrievedSnippet : Type := { title : string; content : string; similarity : Q }.

Definition formatSnippet (s : RetrievedSnippet) : string :=
  ("[" ++ title s ++ "]: " ++ content s)%string.

Definition relevant (s : RetrievedSnippet) : bool := Qle_bool (1 # 2) (similarity s).

(** Step 3 of the pipeline as the specification words it: keep the
    snippets with similarity at least 0.5, take at most the first three,
    join the blocks with a blank line. *)
Definition knowledgeBlock (snippets : list RetrievedSnippet) : string :=
  String.concat (Worker.nl ++ Worker.nl)
    (List.map formatSnippet (take 3 (List.filter relevant snippets))).

End Spec.

(* ===================================================================== *)
(** ** Runs of the caption grabber                                        *)
(* ===================================================================== *)

(** Vocabulary for statements about sequences of [processText] calls. *)

Module Trace.

Import Grabber.

(** A fragment passes the three guards at the top of [processText]. *)
Definition accepted (rawText : jsstring) : bool :=
  negb (falsy rawText)
  && negb (length (trim rawText) <? 2)%nat
  && negb (isUIText (trim rawText)).

(** The calls [processText(rawText)] of a run, each with the clock
    reading it observes, applied in order. *)
Definition ingest (inputs : list (Z * jsstring)) (g : CaptionGrabber) : CaptionGrabber :=
  foldl (fun g input => processText (fst input) (snd input) g) g inputs.

(** The entry a fragment makes when it is appended. *)
Definition entryOf (input : Z * jsstring) : CaptionEntry :=
  {| text := trim (snd input); time := fst input |}.

(** Neither text contains the other: the two cannot be merged. *)
Definition unrelated (a b : jsstring) : bool :=
  negb (includes a b) && negb (includes b a).

(** Each text is unrelated to the one before it; [prev] is the text
    before the first, if any. *)
Fixpoint separated (prev : option jsstring) (texts : list jsstring) : bool :=
  match texts with
  | [] => true
  | t :: rest =>
      match prev with
      | Some p => unrelated p t
      | None => true
      end && separated (Some t) rest
  end.

(** [R] holds between every element and its successor. *)
Fixpoint adjacent {A} (R : A -> A -> Prop) (l : list A) : Prop :=
  match l with
  | a :: (b :: _) as rest => R a b /\ adjacent R rest
  | _ => True
  end.

(** No entry's text contains the text of the entry after it.  This is
    what the merge step maintains; it is stronger than "no two adjacent
    entries have the same text". *)
Definition noContainment (b : list CaptionEntry) : Prop :=
  adjacent (fun p q => includes (text p) (text q) = false) b.

(** Thirty short questions, pairwise unrelated. *)
Definition thirtyUtterances : list (Z * jsstring) :=
  map (fun n : nat => (Z.of_nat n, lit "question " ++ [N.of_nat (65 + n)] ++ lit " please"))
      (seq 0 30).

End Trace.

(* ===================================================================== *)
(** ** Runs of the generation handler                                     *)
(* ===================================================================== *)

(** Vocabulary for statements about [handleGenerateResponse]: the values
    its local constants take, the shapes of retrieval replies, and the
    inputs of the examples. *)

Module Scenario.

Import Js Worker Spec.
Open Scope string_scope.

(** [settings.key] *)
Definition storedValue (stored : list (string * value)) (key : string) : value :=
  default Undefined (assoc key stored).

(** [v.key] where [v] is known not to be [undefined] or [null]. *)
Definition propertyOf (v : value) (key : string) : value :=
  match getOpt v key with
  | Normal x => x
  | Throw _ => Undefined
  end.

(** The constants [provider], [model], [apiKey] and [ragEnabled] of the
    handler. *)
Definition providerOf (stored : list (string * value)) : value :=
  or_else (storedValue stored "provider") (Str "pollinations").

Definition modelOf (stored : list (string * value)) (config : value) : value :=
  or_else (or_else (storedValue stored "model") (propertyOf config "defaultModel"))
          (Str "openai").

Definition apiKeyOf (rt : Runtime) (stored : list (string * value)) : value :=
  or_else (propertyOf (or_else (storedValue stored "apiKeys") (Obj []))
                      (toString rt (providerOf stored)))
          (Str EmptyString).

Definition ragEnabledOf (stored : list (string * value)) : bool :=
  strictNeqFalse (storedValue stored "ragEnabled").

(** The provider's entry in [PROVIDERS_CONFIG] says it needs a key. *)
Definition requiresCredential (provider : string) : bool :=
  truthy (propertyOf (propertyOf PROVIDERS_CONFIG provider) "requiresKey").

Definition providerName (provider : string) : value :=
  propertyOf (propertyOf PROVIDERS_CONFIG provider) "name".

(** The result sent when the key is missing. *)
Definition missingKeyResult (rt : Runtime) (provider : string) : value :=
  errorResult ("No API Key found for " ++ toString rt (providerName provider)
               ++ ". Please open extension settings.").

(** The result sent by the [catch] clause of the handler. *)
Definition networkError (e : Error) : value :=
  errorResult ("Network Error: " ++ message e).

(** What [respond] sends, from the completion of the provider call. *)
Definition outcomeOf (ragContext : string) (c : completion value) : value :=
  match c with
  | Throw e => networkError e
  | Normal response =>
      if truthy (Str ragContext) then
        match get response "text" with
        | Normal text => if truthy text then set response "usedRag" (Bool true) else response
        | Throw e => networkError e
        end
      else response
  end.

(** A computation that only sends requests: it leaves [sent] alone, and
    what it does is the same in every world. *)
Definition logsOnly {A} (m : M A) : Prop :=
  forall w,
    m w = (fst (m initial),
           {| fetched := fetched w ++ fetched (snd (m initial)); sent := sent w |}).

(** A JSON value is a well-formed snippet. *)
Definition represents (v : value) (s : RetrievedSnippet) : Prop :=
  exists props,
    v = Obj props
    /\ assoc "title" props = Some (Str (title s))
    /\ assoc "content" props = Some (Str (content s))
    /\ assoc "similarity" props = Some (Num (Finite (similarity s))).

Definition snippetValue (s : RetrievedSnippet) : value :=
  Obj [("title", Str (title s)); ("content", Str (content s));
       ("similarity", Num (Finite (similarity s)))].

(** The ways a retrieval can fail: the request is rejected, the status
    is not 2xx, the body is not JSON, or the JSON has not the shape the
    code reads. *)
Definition retrievalFails (rt : Runtime) (net : Network) (query : string) : Prop :=
  match net (searchRequest rt query) with
  | Throw _ => True
  | Normal response =>
      ok response = false
      \/ match json response with
         | Throw _ => True
         | Normal data => exists e, relevantChunks rt data = Throw e
         end
  end.

(** A runtime for the examples, none of which formats or parses a
    number. *)
Definition exampleRuntime : Runtime :=
  {| NumberToString := fun _ => "0";
     StringToNumber := fun _ => NaN;
     JSON_stringify := fun _ => "{}";
     encodeURIComponent := fun s => Normal s;
     extensionURL := "chrome-extension://coach/" |}.

(** A network on which every request is answered 200 with [data]. *)
Definition answering (data : value) : Network :=
  fun _ => Normal {| ok := true; status := 200; statusText := "OK";
                     text := Normal "ok"; json := Normal data |}.

(** A network on which every request is rejected. *)
Definition unreachable : Network :=
  fun _ => Throw (TypeError "Failed to fetch").

(** A network on which the retrieval server is down and every other
    request is answered 200 with the text [reply]. *)
Definition retrievalDown (reply : string) : Network :=
  fun request =>
    if String.prefix SERVER_URL (url request) then Throw (TypeError "Failed to fetch")
    else Normal {| ok := true; status := 200; statusText := "OK";
                   text := Normal reply; json := Normal (Str reply) |}.

Definition fourSnippets : list RetrievedSnippet :=
  [ {| title := "a"; content := "A"; similarity := 9 # 10 |};
    {| title := "b"; content := "B"; similarity := 8 # 10 |};
    {| title := "c"; content := "C"; similarity := 7 # 10 |};
    {| title := "d"; content := "D"; similarity := 6 # 10 |} ].

Definition searchResults (snippets : list RetrievedSnippet) : value :=
  Obj [("results", Arr (List.map snippetValue snippets))].

End Scenario.

(* ===================================================================== *)
(** ** Callers of the caption grabber                                     *)
(* ===================================================================== *)

(** The two channels that feed [processText] ([startObserving] and
    [startPeriodicExtraction]) and the sidebar's trigger button, which
    reads the window.  Of the DOM only what these functions read is kept:
    the text of the nodes involved.  Each text comes with the clock
    reading that the [processText] call made for it observes. *)

Module Capture.

Import Grabber Trace.

(** A text and the [Date.now()] reading while it is processed. *)
Definition TimedText : Type := (Z * jsstring)%type.

(** A node of [mutation.addedNodes].  For an element: the [textContent]
    of each descendant matched by
    [querySelectorAll('[data-tid="closed-caption-text"], [class*="caption-text"], span')],
    in document order, the element's [innerText] and [textContent], and
    the reading for the call made when nothing matched. *)
Inductive AddedNode : Type :=
| ElementNode (textElements : list TimedText) (now : Z) (innerText textContent : jsstring)
| TextNode (textContent : TimedText)
| OtherNode.

Inductive MutationType : Type := childList | characterData | attributes.

(** A [MutationRecord]: [addedNodes], [type] and [target.textContent]. *)
Record MutationRecord : Type := {
  addedNodes : list AddedNode;
  type : MutationType;
  target : TimedText
}.

Definition processTimed (t : TimedText) (g : CaptionGrabber) : CaptionGrabber :=
  processText (fst t) (snd t) g.

(** The body of [mutation.addedNodes.forEach]. *)
Definition onAddedNode (node : AddedNode) (g : CaptionGrabber) : CaptionGrabber :=
  match node with
  | ElementNode textElements now innerText textContent =>
      if (0 <? length textElements)%nat then
        foldl (fun g el => processTimed el g) g textElements
      else
        processText now (if falsy innerText then textContent else innerText) g
  | TextNode textContent => processTimed textContent g
  | OtherNode => g
  end.

(** The body of [mutations.forEach]. *)
Definition onMutation (mutation : MutationRecord) (g : CaptionGrabber) : CaptionGrabber :=
  if (0 <? length (addedNodes mutation))%nat then
    foldl (fun g node => onAddedNode node g) g (addedNodes mutation)
  else
    match type mutation with
    | characterData => processTimed (target mutation) g
    | _ => g
    end.

(** The [MutationObserver] callback of [startObserving]. *)
Definition observerCallback (mutations : list MutationRecord) (g : CaptionGrabber)
  : CaptionGrabber :=
  foldl (fun g mutation => onMutation mutation g) g mutations.

(** The body of [captionTexts.forEach] in [startPeriodicExtraction]:
    [el] is given by its [textContent]. *)
Definition extractElement (el : TimedText) (g : CaptionGrabber) : CaptionGrabber :=
  let text := trim (snd el) in
  if negb (falsy text) && (2 <? length text)%nat then processText (fst el) text g else g.

(** One run of the interval callback of [startPeriodicExtraction], over
    the elements [querySelectorAll] returns. *)
Definition periodicExtraction (captionTexts : list TimedText) (g : CaptionGrabber)
  : CaptionGrabber :=
  foldl (fun g el => extractElement el g) g captionTexts.

(** What reaches a listening grabber. *)
Inductive CaptureEvent : Type :=
| Mutations (mutations : list MutationRecord)
| PollTick (captionTexts : list TimedText).

Definition onEvent (event : CaptureEvent) (g : CaptionGrabber) : CaptionGrabber :=
  match event with
  | Mutations mutations => observerCallback mutations g
  | PollTick captionTexts => periodicExtraction captionTexts g
  end.

Definition capture (events : list CaptureEvent) (g : CaptionGrabber) : CaptionGrabber :=
  foldl (fun g event => onEvent event g) g events.

(** The texts an event hands to [processText], in call order. *)
Definition nodeCalls (node : AddedNode) : list TimedText :=
  match node with
  | ElementNode textElements now innerText textContent =>
      if (0 <? length textElements)%nat then textElements
      else [(now, if falsy innerText then textContent else innerText)]
  | TextNode textContent => [textContent]
  | OtherNode => []
  end.

Definition mutationCalls (mutation : MutationRecord) : list TimedText :=
  if (0 <? length (addedNodes mutation))%nat then
    concat (map nodeCalls (addedNodes mutation))
  else
    match type mutation with
    | characterData => [target mutation]
    | _ => []
    end.

Definition elementCalls (el : TimedText) : list TimedText :=
  let text := trim (snd el) in
  if negb (falsy text) && (2 <? length text)%nat then [(fst el, text)] else [].

Definition eventCalls (event : CaptureEvent) : list TimedText :=
  match event with
  | Mutations mutations => concat (map mutationCalls mutations)
  | PollTick captionTexts => concat (map elementCalls captionTexts)
  end.

(** What the click handler of the trigger button does next. *)
Inductive TriggerEffect : Type :=
| AddMessage (message type : string)
| SendMessage (action : string) (recentCaptions : jsstring).

(** The click handler of [sc-trigger-btn], up to the call of
    [chrome.runtime.sendMessage]; [captionGrabber] is
    [window.captionGrabber]. *)
Definition onTriggerClick (now : Z) (captionGrabber : option CaptionGrabber) : TriggerEffect :=
  let captions :=
    match captionGrabber with
    | Some g => fst (getRecentCaptions now g)
    | None => []
    end in
  if falsy captions || (length (trim captions) <? 2)%nat then
    AddMessage "⚠️ Can't read captions yet. Wait for someone to speak." "error"
  else
    SendMessage "GENERATE_RESPONSE" captions.

(** A text as [processText] stores it: trimmed, at least two code units,
    not UI noise. *)
Definition clean (t : jsstring) : Prop :=
  trim t = t /\ (2 <= length t)%nat /\ isUIText t = false.

(** A non-empty text whose first and last code units are not white
    space. *)
Definition ended (t : jsstring) : Prop :=
  (exists c rest, t = c :: rest /\ isWhiteSpace c = false)
  /\ (exists init d, t = init ++ [d] /\ isWhiteSpace d = false).

(** The grabber once [startObserving] or the constructor has run, before
    any text arrives. *)
Definition emptyGrabber (listening : bool) : CaptionGrabber :=
  {| buffer := []; isListening := listening |}.

(** Entry times never decrease along the buffer. *)
Definition ordered (b : list CaptionEntry) : Prop :=
  adjacent (fun p q => time p <= time q) b.

(** Each text contains the one before it; [prev] is the text before the
    first. *)
Fixpoint growing (prev : jsstring) (texts : list jsstring) : bool :=
  match texts with
  | [] => true
  | t :: rest => includes t prev && growing t rest
  end.

End Capture.

(* ===================================================================== *)
(** ** The other handlers of the worker, and the sidebar's reply          *)
(* ===================================================================== *)

Module Service.

Import Js Worker Capture.
#[local] Open Scope string_scope.

Section ServiceHandlers.

Context (rt : Runtime) (net : Network).

(** [handleTestConnection(payload, sendResponse)]; [payload] is given by
    its own properties.  Its [switch] is the one of
    [handleGenerateResponse], with the test prompt. *)
Definition handleTestConnection (payload : list (string * value)) : M unit :=
  provider <- lift (get (Obj payload) "provider") ;;
  model <- lift (get (Obj payload) "model") ;;
  apiKey <- lift (get (Obj payload) "apiKey") ;;
  let testPrompt := "Say 'OK' if you can hear me." in
  try_catch
    (response <- dispatch rt net provider apiKey model testPrompt ;;
     error <- lift (get response "error") ;;
     if truthy error then
       sendResponse (Obj [("success", Bool false); ("error", error)])
     else
       text <- lift (get response "text") ;;
       sendResponse (Obj [("success", Bool true); ("message", text)]))
    (fun err =>
       sendResponse (Obj [("success", Bool false);
                          ("error", Str ("Network Error: " ++ message err))])).

(** The callback the sidebar passes to [chrome.runtime.sendMessage]:
    what it adds to the history.  [lastError] tells whether
    [chrome.runtime.lastError] is set. *)
Definition onGenerateReply (lastError : bool) (response : value) : completion TriggerEffect :=
  if lastError then Normal (AddMessage "Error: Please refresh the page." "error")
  else
    cbind (get response "error") (fun error =>
    if truthy error then
      cbind (ToString rt error) (fun shown => Normal (AddMessage shown "error"))
    else
      cbind (get response "usedRag") (fun usedRag =>
      let prefix := if truthy usedRag then "📚 " else EmptyString in
      cbind (get response "text") (fun text =>
      cbind (ToString rt text) (fun shown =>
      Normal (AddMessage (prefix ++ shown)
                         (if truthy usedRag then "rag" else "normal")))))).

End ServiceHandlers.

(** What an adapter returns, when it returns: an error with a text that
    is not empty, or a text. *)
Definition adapterResult (v : value) : Prop :=
  (exists msg, v = errorResult msg /\ truthy (Str msg) = true)
  \/ (exists text, v = textResult text).

(** A computation that sends no response and at most one request, to an
    [https] address, and that has made its request whenever it returns. *)
Definition oneRequest {A} (m : M A) : Prop :=
  forall w, exists requests,
    snd (m w) = {| fetched := fetched w ++ requests; sent := sent w |}
    /\ (length requests <= 1)%nat
    /\ Forall (fun request => String.prefix "https://" (url request) = true) requests
    /\ (forall v, fst (m w) = Normal v -> length requests = 1%nat).

(** The value [respond] sends is a result: an error text, or a text with
    or without the [usedRag] mark. *)
Inductive GenerationResult : value -> Prop :=
| ErrorResult (msg : string) :
    truthy (Str msg) = true -> GenerationResult (errorResult msg)
| TextResult (text : value) : GenerationResult (textResult text)
| RagResult (text : value) :
    truthy text = true -> GenerationResult (set (textResult text) "usedRag" (Bool true)).

End Service.

(* ===================================================================== *)
(** ** Knowledge-base handlers of the worker                              *)
(* ===================================================================== *)

Module Documents.

Import Js Worker.
#[local] Open Scope string_scope.

(** *** Chunking *)

(** The code units that [.] does not match: the line terminators. *)
Definition isLineTerminator (c : N) : bool :=
  ((c =? 10) || (c =? 13) || (c =? 8232) || (c =? 8233))%N.

(** The longest run of at most [n] units at the start of [s] that [.]
    matches, and what follows it. *)
Fixpoint dotRun (n : nat) (s : jsstring) : jsstring * jsstring :=
  match n, s with
  | S n', c :: s' =>
      if isLineTerminator c then ([], s)
      else let (run, rest) := dotRun n' s' in (c :: run, rest)
  | _, _ => ([], s)
  end.

(** The successive matches of [/.{1,500}/g]: at a unit that [.] matches,
    the greedy run of up to 500 units, the scan going on after it; at a
    line terminator no match, the scan going on one unit later.  [fuel]
    bounds the number of steps. *)
Fixpoint scanChunks (fuel : nat) (s : jsstring) : list jsstring :=
  match fuel with
  | O => []
  | S fuel' =>
      match s with
      | [] => []
      | c :: s' =>
          if isLineTerminator c then scanChunks fuel' s'
          else let (run, rest) := dotRun 500 s in run :: scanChunks fuel' rest
      end
  end.

(** [content.match(/.{1,500}/g) || []] on the code units of [content];
    every step of the scan consumes a unit, so [length content] steps
    are enough. *)
Definition chunksOf (content : jsstring) : list jsstring :=
  scanChunks (length content) content.

(** A chunk: one to 500 code units, none a line terminator. *)
Definition goodChunk (chunk : jsstring) : Prop :=
  (1 <= length chunk <= 500)%nat
  /\ forallb (fun c => negb (isLineTerminator c)) chunk = true.

(** *** Object spread *)

(** How the worker's strings relate to UTF-16: the code units of a
    string, the string of given code units, and the one-character strings
    that iterating a string yields.  The runtime supplies them. *)
Record Encoding : Type := {
  codeUnits : string -> jsstring;
  fromCodeUnits : jsstring -> string;
  codePoints : string -> list string
}.

(** [obj[key] = v] on own properties: the value is replaced where the
    key exists, and added at the end otherwise. *)
Fixpoint assign (props : list (string * value)) (key : string) (v : value)
  : list (string * value) :=
  match props with
  | [] => [(key, v)]
  | (k, x) :: rest =>
      if String.eqb k key then (k, v) :: rest else (k, x) :: assign rest key v
  end.

(** An index as a property key: its decimal digits. *)
Definition indexKey (i : nat) : string :=
  DecimalString.NilZero.string_of_uint (Nat.to_uint i).

(** The own enumerable properties that [...source] copies.  They are
    kept in the order given; nothing in this code reads the order of the
    properties of an object. *)
Definition ownEntries (enc : Encoding) (source : value) : list (string * value) :=
  match source with
  | Obj props => props
  | Arr items => imap (fun i x => (indexKey i, x)) items
  | Str s => imap (fun i u => (indexKey i, Str (fromCodeUnits enc [u]))) (codeUnits enc s)
  | _ => []
  end.

(** [{ ...target, ...source }] *)
Definition spread (enc : Encoding) (target : list (string * value)) (source : value)
  : list (string * value) :=
  foldl (fun acc entry => assign acc (fst entry) (snd entry)) target (ownEntries enc source).

(** *** The cloud module *)

(** What awaiting the methods of [CloudDB] gives; the module itself is
    loaded at run time and [loadCloudDB] returns [null] when that fails. *)
Record CloudDB : Type := {
  saveDocument : value -> value -> value -> completion value;
  getDocuments : completion value;
  deleteDocument : value -> completion value;
  healthCheck : completion value
}.

(** [chunks.length] *)
Definition lengthOf (enc : Encoding) (chunks : value) : completion value :=
  match chunks with
  | Arr items => Normal (Num (Finite (inject_Z (Z.of_nat (length items)))))
  | Str s => Normal (Num (Finite (inject_Z (Z.of_nat (length (codeUnits enc s))))))
  | _ => get chunks "length"
  end.

(** [CloudDB.saveDocument(title, content, chunks = [])] of [cloud-db.js].
    [initFirebase] is what awaiting [initFirebase()] and checking its
    result comes to, [setDoc] what building the reference and awaiting
    [setDoc] on it does.  Whatever is thrown inside is caught and
    returned as a result. *)
Definition saveDocumentOf (enc : Encoding) (initFirebase : completion unit)
    (setDoc : value -> value -> value -> completion unit)
    (title content chunks : value) : completion value :=
  let chunks := match chunks with Undefined => Arr [] | _ => chunks end in
  let attempt :=
    cbind initFirebase (fun _ =>
    cbind (lengthOf enc chunks) (fun chunkCount =>
    cbind (setDoc title content chunks) (fun _ =>
    cbind (lengthOf enc chunks) (fun saved =>
    Normal (Obj [("success", Bool true); ("chunks", saved)]))))) in
  match attempt with
  | Normal result => Normal result
  | Throw error => Normal (Obj [("success", Bool false); ("error", Str (message error))])
  end.

(** [settings.storageMode || 'local'] is ['cloud'] *)
Definition cloudMode (stored : list (string * value)) : bool :=
  strictEqStr (or_else (default Undefined (assoc "storageMode" stored)) (Str "local")) "cloud".

Section DocumentHandlers.

Context (rt : Runtime) (enc : Encoding) (net : Network) (cloud : option CloudDB).

Definition simpleGet (url : string) : Request :=
  {| url := url; method := "GET"; headers := []; body := None |}.

Definition failure (msg : string) (more : list (string * value)) : value :=
  Obj ([("success", Bool false); ("error", Str msg)] ++ more).

(** [handleRagHealth(sendResponse)] *)
Definition handleRagHealth : M unit :=
  try_catch
    (response <- fetch net (simpleGet (SERVER_URL ++ "/health")) ;;
     data <- lift (json response) ;;
     sendResponse (Obj (spread enc [("success", Bool true)] data)))
    (fun err => sendResponse (failure "RAG server not running" [])).

(** [handleRagSearch(payload, sendResponse)] *)
Definition handleRagSearch (payload : value) : M unit :=
  try_catch
    (query <- lift (get payload "query") ;;
     response <- fetch net
       {| url := SERVER_URL ++ "/search"; method := "POST";
          headers := [("Content-Type", "application/json")];
          body := Some (JSON_stringify rt (Obj [("query", query); ("limit", Num TOP_K)])) |} ;;
     data <- lift (json response) ;;
     sendResponse (Obj (spread enc [("success", Bool true)] data)))
    (fun err => sendResponse (failure "RAG server not running" [("results", Arr [])])).

(** [handleGetDocuments(sendResponse)], after the storage read has
    resolved to the object with own properties [stored]. *)
Definition handleGetDocuments (stored : list (string * value)) : M unit :=
  if cloudMode stored then
    try_catch
      (match cloud with
       | None => sendResponse (failure "Cloud not configured" [("documents", Arr [])])
       | Some db =>
           result <- lift (getDocuments db) ;;
           sendResponse result
       end)
      (fun err =>
         sendResponse (failure (message err) [("documents", Arr [])]))
  else
    try_catch
      (response <- fetch net (simpleGet (SERVER_URL ++ "/documents")) ;;
       data <- lift (json response) ;;
       sendResponse (Obj (spread enc [("success", Bool true)] data)))
      (fun err => sendResponse (failure "RAG server not running" [("documents", Arr [])])).

(** [handleDeleteDocument(payload, sendResponse)] *)
Definition handleDeleteDocument (stored : list (string * value)) (payload : value) : M unit :=
  if cloudMode stored then
    try_catch
      (match cloud with
       | None => sendResponse (failure "Cloud not configured" [])
       | Some db =>
           title <- lift (get payload "title") ;;
           result <- lift (deleteDocument db title) ;;
           sendResponse result
       end)
      (fun err => sendResponse (failure (message err) []))
  else
    try_catch
      (title <- lift (get payload "title") ;;
       titleText <- lift (ToString rt title) ;;
       encoded <- lift (encodeURIComponent rt titleText) ;;
       response <- fetch net
         {| url := SERVER_URL ++ "/documents/" ++ encoded; method := "DELETE";
            headers := []; body := None |} ;;
       if negb (ok response) then
         data <- lift (json response) ;;
         detail <- lift (get data "detail") ;;
         sendResponse (Obj [("success", Bool false);
                            ("error", or_else detail (Str "Failed to delete"))])
       else
         sendResponse (Obj [("success", Bool true)]))
      (fun err => sendResponse (failure "RAG server not running" [])).

(** [payload.content.match(/.{1,500}/g) || []] *)
Definition contentChunks (content : value) : completion (list jsstring) :=
  match content with
  | Str s => Normal (chunksOf (codeUnits enc s))
  | Undefined | Null => cbind (get content "match") (fun _ => Normal [])
  | _ => Throw (TypeError "payload.content.match is not a function")
  end.

(** The number [n] as a value. *)
Definition count (n : nat) : value := Num (Finite (inject_Z (Z.of_nat n))).

(** [handleAddDocument(payload, sendResponse)] *)
Definition handleAddDocument (stored : list (string * value)) (payload : value) : M unit :=
  if cloudMode stored then
    try_catch
      (match cloud with
       | None => sendResponse (failure "Cloud not configured. Check firebase-config.js" [])
       | Some db =>
           content <- lift (get payload "content") ;;
           chunks <- lift (contentChunks content) ;;
           title <- lift (get payload "title") ;;
           result <- lift (saveDocument db title content
                             (Arr (map (fun c => Str (fromCodeUnits enc c)) chunks))) ;;
           success <- lift (get result "success") ;;
           if truthy success then
             saved <- lift (get result "chunks") ;;
             sendResponse (Obj [("success", Bool true);
                                ("chunks", or_else saved (count (length chunks)))])
           else
             error <- lift (get result "error") ;;
             sendResponse (Obj [("success", Bool false);
                                ("error", or_else error (Str "Failed to save to cloud"))])
       end)
      (fun err => sendResponse (failure ("Cloud error: " ++ message err) []))
  else
    try_catch
      (title <- lift (get payload "title") ;;
       content <- lift (get payload "content") ;;
       response <- fetch net
         {| url := SERVER_URL ++ "/documents"; method := "POST";
            headers := [("Content-Type", "application/json")];
            body := Some (JSON_stringify rt (Obj [("title", title); ("content", content)])) |} ;;
       data <- lift (json response) ;;
       if negb (ok response) then
         detail <- lift (get data "detail") ;;
         sendResponse (Obj [("success", Bool false);
                            ("error", or_else detail (Str "Failed to add document"))])
       else
         sendResponse (Obj (spread enc [("success", Bool true)] data)))
      (fun err =>
         sendResponse (failure "RAG server not running. Start with: uvicorn main:app" [])).

(** [handleCloudHealth(sendResponse)] *)
Definition handleCloudHealth : M unit :=
  try_catch
    (match cloud with
     | None =>
         sendResponse (Obj [("success", Bool false); ("status", Str "not_configured");
                            ("message", Str "Cloud module not loaded")])
     | Some db =>
         result <- lift (healthCheck db) ;;
         sendResponse result
     end)
    (fun err =>
       sendResponse (Obj [("success", Bool false); ("status", Str "error");
                          ("message", Str (message err))])).

End DocumentHandlers.

(** *** Copying the local documents to the cloud *)

Section Sync.

(** [handleCloudSyncAll] awaits [fetch] and [CloudDB.saveDocument] once
    per document, so the outside world is given per call: [nets k]
    answers the request made after [k] earlier ones, and the cloud
    module as it behaves in the [i]-th round of the loop. *)
Context (rt : Runtime) (enc : Encoding) (nets : nat -> Network)
        (cloud : option (nat -> CloudDB)).

Definition fetchAt (request : Request) : M Response :=
  fun w => fetch (nets (length (fetched w))) request w.

(** The block that fills [localDocs]; it starts as [[]] and stays so
    when the block throws. *)
Definition localDocuments : M value :=
  try_catch
    (response <- fetchAt (simpleGet (SERVER_URL ++ "/documents")) ;;
     if ok response then
       data <- lift (json response) ;;
       documents <- lift (get data "documents") ;;
       ret (or_else documents (Arr []))
     else
       ret (Arr []))
    (fun err => ret (Arr [])).

(** What [for (const doc of localDocs)] goes through: the items of an
    array, the characters of a string; other values are not iterable. *)
Definition iterate (localDocs : value) : completion (list value) :=
  match localDocs with
  | Arr items => Normal items
  | Str s => Normal (map Str (codePoints enc s))
  | _ => Throw (TypeError "localDocs is not iterable")
  end.

(** [doc.title] can be read and converted to a string: [doc] is not
    [undefined] or [null], and its title converts. *)
Definition titled (doc : value) : bool :=
  match get doc "title" with
  | Normal title => convertible title
  | Throw _ => false
  end.

(** One round of the loop; the result tells whether [syncedCount++] was
    reached.  The [catch] block reads [doc.title] and converts it to a
    string for its log line. *)
Definition syncDocument (db : CloudDB) (doc : value) : M bool :=
  try_catch
    (title <- lift (get doc "title") ;;
     titleText <- lift (ToString rt title) ;;
     encoded <- lift (encodeURIComponent rt titleText) ;;
     fullDoc <- fetchAt (simpleGet (SERVER_URL ++ "/documents/" ++ encoded)) ;;
     if ok fullDoc then
       docData <- lift (json fullDoc) ;;
       title <- lift (get doc "title") ;;
       content <- lift (get docData "content") ;;
       chunks <- lift (get docData "chunks") ;;
       _ <- lift (saveDocument db title (or_else content (Str EmptyString))
                    (or_else chunks (Arr []))) ;;
       ret true
     else
       ret false)
    (fun err =>
       title <- lift (get doc "title") ;;
       _ <- lift (ToString rt title) ;;
       ret false).

Fixpoint syncLoop (db : nat -> CloudDB) (i : nat) (docs : list value) (syncedCount : nat)
  : M nat :=
  match docs with
  | [] => ret syncedCount
  | doc :: rest =>
      synced <- syncDocument (db i) doc ;;
      syncLoop db (S i) rest (if synced then S syncedCount else syncedCount)
  end.

(** [handleCloudSyncAll(sendResponse)] *)
Definition handleCloudSyncAll : M unit :=
  try_catch
    (match cloud with
     | None => sendResponse (failure "Cloud module not loaded" [])
     | Some db =>
         localDocs <- localDocuments ;;
         docs <- lift (iterate localDocs) ;;
         syncedCount <- syncLoop db 0 docs 0 ;;
         sendResponse (Obj [("success", Bool true); ("documents", count syncedCount)])
     end)
    (fun err => sendResponse (failure (message err) [])).

End Sync.

(** *** What the handlers are checked against *)

(** A handler that, from every state, returns normally after calling
    [sendResponse] exactly once and [fetch] at most [limit] times. *)
Definition answersOnce (limit : nat) (handler : M unit) : Prop :=
  forall w, exists requests result,
    handler w = (Normal tt, {| fetched := fetched w ++ requests; sent := sent w ++ [result] |})
    /\ (length requests <= limit)%nat.

(** The encoding restricted to ASCII text, where a character is one
    byte and one code unit. *)
Definition asciiEncoding : Encoding :=
  {| codeUnits := JsString.lit;
     fromCodeUnits := fun units => string_of_list_ascii (map Ascii.ascii_of_N units);
     codePoints := fun s => map (fun c => String c EmptyString) (list_ascii_of_string s) |}.

(** A network on which every request is answered with status 500 and
    the JSON body [data]. *)
Definition erroring (data : value) : Network :=
  fun _ => Normal {| ok := false; status := 500; statusText := "Internal Server Error";
                     text := Normal "error"; json := Normal data |}.

(** A cloud module whose every call resolves to [result]. *)
Definition resolving (result : value) : CloudDB :=
  {| saveDocument := fun _ _ _ => Normal result;
     getDocuments := Normal result;
     deleteDocument := fun _ => Normal result;
     healthCheck := Normal result |}.

End Documents.

(* ===================================================================== *)
(** ** Facts about strings                                                *)
(* ===================================================================== *)

Module JsStringFacts.

Lemma startsWith_app (s t : jsstring) :
  startsWith s t = true <-> exists r, s = t ++ r.
Proof.
  revert s. induction t as [|b t IH]; intros s; simpl.
  - split; [intros _; by exists s | done].
  - destruct s as [|a s]; simpl.
    + split; [done | intros [r Hr]; discriminate].
    + rewrite andb_true_iff, N.eqb_eq, IH. split.
      * intros [-> [r ->]]. by exists r.
      * intros [r Hr]. injection Hr as -> ->. split; [done | by exists r].
Qed.

Lemma includes_app (s t : jsstring) :
  includes s t = true <-> exists p r, s = p ++ t ++ r.
Proof.
  induction s as [|a s IH]; simpl.
  - rewrite orb_false_r, startsWith_app. split.
    + intros [r Hr]. by exists [], r.
    + intros [p [r Hpr]]. symmetry in Hpr.
      apply app_eq_nil in Hpr as [-> Htr]. by exists r.
  - rewrite orb_true_iff, IH.
    change (match t with [] => true | b :: t' => (a =? b)%N && startsWith s t' end)
      with (startsWith (a :: s) t).
    rewrite startsWith_app. split.
    + intros [[r Hr] | [p [r Hpr]]].
      * by exists [], r.
      * exists (a :: p), r. by rewrite Hpr.
    + intros [[|c p] [r Hpr]]; simpl in Hpr.
      * left. by exists r.
      * right. injection Hpr as -> ->. by exists p, r.
Qed.

Lemma startsWith_includes (s t : jsstring) :
  startsWith s t = true -> includes s t = true.
Proof.
  rewrite startsWith_app, includes_app. intros [r ->]. by exists [], r.
Qed.

Lemma includes_refl (s : jsstring) : includes s s = true.
Proof. apply includes_app. exists [], []. by rewrite app_nil_r. Qed.

Lemma includes_trans (s t u : jsstring) :
  includes s t = true -> includes t u = true -> includes s u = true.
Proof.
  rewrite !includes_app. intros [p [r ->]] [p' [r' ->]].
  exists (p ++ p'), (r' ++ r). by rewrite <- !app_assoc.
Qed.

Lemma strictEq_eq (s t : jsstring) : strictEq s t = true <-> s = t.
Proof.
  revert t. induction s as [|a s IH]; intros [|b t]; simpl; try done.
  rewrite andb_true_iff, N.eqb_eq, IH. split.
  - by intros [-> ->].
  - intros H. by injection H as -> ->.
Qed.

(** A string that [includes] does not relate to itself is impossible;
    so two strings of which neither contains the other differ. *)
Lemma not_includes_neq (s t : jsstring) : includes s t = false -> s <> t.
Proof. intros H ->. by rewrite includes_refl in H. Qed.

Lemma trimStart_fixed (c : N) (s : jsstring) :
  isWhiteSpace c = false -> trimStart (c :: s) = c :: s.
Proof. intros H. simpl. by rewrite H. Qed.

Lemma trimStart_head (s : jsstring) :
  match trimStart s with
  | [] => True
  | c :: _ => isWhiteSpace c = false
  end.
Proof.
  induction s as [|c s IH]; simpl; [done|].
  destruct (isWhiteSpace c) eqn:E; [done | exact E].
Qed.

Lemma trimStart_idem (s : jsstring) : trimStart (trimStart s) = trimStart s.
Proof.
  pose proof (trimStart_head s) as H.
  destruct (trimStart s) as [|c r]; [done | by apply trimStart_fixed].
Qed.

(** [trimStart] drops a prefix. *)
Lemma trimStart_suffix (s : jsstring) : exists p, s = p ++ trimStart s.
Proof.
  induction s as [|c s [p IH]]; simpl.
  - by exists [].
  - destruct (isWhiteSpace c).
    + exists (c :: p). simpl. by rewrite <- IH.
    + by exists [].
Qed.

(** [trimEnd] keeps the first unit of a string that starts with a unit
    that is not white space. *)
Lemma trimEnd_head (c : N) (s : jsstring) :
  isWhiteSpace c = false -> exists r, trimEnd (c :: s) = c :: r.
Proof.
  intros Hc. unfold trimEnd. simpl rev.
  destruct (trimStart_suffix (rev s ++ [c])) as [p Hp].
  pose proof (trimStart_head (rev s ++ [c])) as Hh.
  destruct (trimStart (rev s ++ [c])) as [|d u] eqn:E.
  - exfalso. clear Hh Hp.
    induction (rev s) as [|x l IHl]; simpl in E.
    + by rewrite Hc in E.
    + destruct (isWhiteSpace x); [auto | discriminate].
  - assert (Hs : c :: s = rev (d :: u) ++ rev p).
    { rewrite <- rev_app_distr, <- Hp, rev_app_distr. simpl. by rewrite rev_involutive. }
    destruct (rev (d :: u)) as [|y r] eqn:Er.
    + apply (f_equal (@length N)) in Er. rewrite length_rev in Er. discriminate.
    + simpl in Hs. injection Hs as -> _. by exists r.
Qed.

Lemma trimEnd_idem (s : jsstring) : trimEnd (trimEnd s) = trimEnd s.
Proof. unfold trimEnd. by rewrite rev_involutive, trimStart_idem. Qed.

Lemma trim_idem (s : jsstring) : trim (trim s) = trim s.
Proof.
  unfold trim. pose proof (trimStart_head s) as Hh.
  destruct (trimStart s) as [|c u] eqn:E; [done|].
  destruct (trimEnd_head c u Hh) as [r Hr]. rewrite Hr.
  rewrite trimStart_fixed by done. rewrite <- Hr. apply trimEnd_idem.
Qed.

End JsStringFacts.

(* ===================================================================== *)
(** ** Facts about the UI-noise patterns                                  *)
(* ===================================================================== *)

(** Each pattern of [uiPatterns], run through the matcher, decides one
    of the noise classes of the specification. *)

Module RegexFacts.

Import Regex Grabber Spec.
#[local] Open Scope string_scope.

Ltac split_atoms :=
  repeat match goal with
         | |- context [(?x <=? ?y)%N] => destruct (x <=? y)%N; cbn -[N.leb N.eqb]
         | |- context [(?x =? ?y)%N] => destruct (x =? y)%N; cbn -[N.leb N.eqb]
         end.

Lemma test_clock (t : jsstring) :
  test (Cat (Repeat digit 1 1) (Cat (Chr (ch ":"%char)) (Repeat digit 2 0))) t
  = clockAt 1 t || clockAt 2 t.
Proof.
  unfold test, clockAt, digit, isDigit.
  change (ch "0") with 48%N; change (ch "9") with 57%N; change (ch ":") with 58%N.
  change (lit ":") with [58%N].
  destruct t as [|a [|b [|c [|d [|e t]]]]]; cbn -[N.leb N.eqb]; split_atoms; reflexivity.
Qed.

Lemma test_initials (t : jsstring) :
  test (Cat (Repeat (Range (ch "A"%char) (ch "Z"%char)) 2 1) Eoi) t
  = ((length t =? 2)%nat || (length t =? 3)%nat) && forallb isUpper t.
Proof.
  unfold test, isUpper.
  change (ch "A") with 65%N; change (ch "Z") with 90%N.
  destruct t as [|a [|b [|c [|d t]]]]; cbn -[N.leb N.eqb]; split_atoms; reflexivity.
Qed.

(** A word under the [i] flag matches a prefix that equals it up to the
    case of ASCII letters, and the match goes on after that prefix. *)
Lemma matchk_strI (word : string) (s : jsstring) (k : jsstring -> bool) :
  matchk (strI word) s k
  = startsWith (foldCase s) (foldCase (lit word)) && k (drop (String.length word) s).
Proof.
  revert s. induction word as [|a word IH]; intros s; [reflexivity|].
  change (strI (String a word)) with (Cat (ChrI (ch a)) (strI word)).
  destruct s as [|x s]; [reflexivity|].
  simpl matchk. rewrite IH. simpl. by rewrite andb_assoc.
Qed.

Lemma matchk_str (word : string) (s : jsstring) (k : jsstring -> bool) :
  matchk (str word) s k = startsWith s (lit word) && k (drop (String.length word) s).
Proof.
  revert s. induction word as [|a word IH]; intros s; [reflexivity|].
  change (str (String a word)) with (Cat (Chr (ch a)) (str word)).
  destruct s as [|x s]; [reflexivity|].
  simpl matchk. rewrite IH. simpl. by rewrite andb_assoc.
Qed.

Lemma test_prefixI (word : string) (s : jsstring) : test (strI word) s = startsWithI s word.
Proof. unfold test, startsWithI. by rewrite matchk_strI, andb_true_r. Qed.

Lemma startsWith_whole (u v : jsstring) :
  startsWith u v && falsy (drop (length v) u) = strictEq u v.
Proof.
  revert u. induction v as [|b v IH]; intros [|a u]; simpl; try done.
  rewrite <- IH. by rewrite andb_assoc.
Qed.

Lemma lit_length (word : string) : length (lit word) = String.length word.
Proof. unfold lit. rewrite length_map. induction word; simpl; congruence. Qed.

(** A word followed by [$] matches the whole string only. *)
Lemma matchk_wordI (word : string) (s : jsstring) :
  matchk (strI word) s (fun rest => matchk Eoi rest (fun _ => true)) = equalsI s word.
Proof.
  rewrite matchk_strI. unfold equalsI.
  rewrite <- startsWith_whole. f_equal.
  unfold foldCase. rewrite length_map, lit_length, skipn_map.
  by destruct (drop (String.length word) s).
Qed.

Lemma uiPatterns_isNoise (t : jsstring) :
  existsb (fun pattern => test pattern t) uiPatterns = isNoise t.
Proof.
  unfold uiPatterns, isNoise, controlVerbs. cbn [existsb alts].
  rewrite test_clock, test_initials, !test_prefixI.
  unfold test at 1 2 3 4 5. cbn [matchk].
  rewrite !matchk_wordI, !matchk_strI, (matchk_str "..."), !andb_true_r, !orb_false_r.
  unfold startsWithI. by rewrite !orb_assoc.
Qed.

End RegexFacts.

(* ===================================================================== *)
(** ** Facts about the caption grabber                                    *)
(* ===================================================================== *)

Module GrabberFacts.

Import Grabber Spec Trace JsStringFacts RegexFacts.

Lemma last_entry_defined (b : list CaptionEntry) :
  (0 < length b)%nat -> is_Some (b !! (length b - 1)%nat).
Proof. intros H. apply lookup_lt_is_Some. lia. Qed.

Lemma shift_drop (b : list CaptionEntry) : shift b = drop 1 b.
Proof. by destruct b. Qed.

Lemma appendEntry_buffer now t g :
  buffer (appendEntry now t g) = evict (buffer g ++ [{| text := t; time := now |}]).
Proof. unfold appendEntry, evict, push. simpl. by rewrite shift_drop. Qed.

Lemma processText_rejected now raw g :
  accepted raw = false -> processText now raw g = g.
Proof.
  unfold accepted, processText. intros H.
  destruct (falsy raw); [done|].
  destruct (length (trim raw) <? 2)%nat; [done|].
  destruct (isUIText (trim raw)); [done | discriminate].
Qed.

Lemma processText_accepted now raw g :
  accepted raw = true ->
  processText now raw g =
    match last (buffer g) with
    | None => appendEntry now (trim raw) g
    | Some lastEntry =>
        if startsWith (trim raw) (text lastEntry) || includes (trim raw) (text lastEntry)
        then set_buffer g (removelast (buffer g) ++ [{| text := trim raw; time := now |}])
        else if includes (text lastEntry) (trim raw) then g
        else if strictEq (text lastEntry) (trim raw) then g
        else appendEntry now (trim raw) g
    end.
Proof.
  unfold accepted, processText. intros H.
  destruct (falsy raw); [discriminate|].
  destruct (length (trim raw) <? 2)%nat; [discriminate|].
  destruct (isUIText (trim raw)); [discriminate|]. clear H.
  destruct (buffer g) as [|e b] eqn:Hb using rev_ind; [done|]. clear IHb.
  rewrite last_snoc, removelast_last, length_app. simpl.
  replace (length b + 1 - 1)%nat with (length b + 0)%nat by lia.
  replace (0 <? length b + 1)%nat with true by (symmetry; apply Nat.ltb_lt; lia).
  rewrite lookup_app_r by lia. replace (length b + 0 - length b)%nat with 0%nat by lia.
  simpl. rewrite insert_app_r. done.
Qed.

Lemma strictEq_sym (s t : jsstring) : strictEq s t = strictEq t s.
Proof.
  destruct (strictEq s t) eqn:E1, (strictEq t s) eqn:E2; try done.
  - apply strictEq_eq in E1 as ->. by rewrite (proj2 (strictEq_eq t t)) in E2.
  - apply strictEq_eq in E2 as ->. by rewrite (proj2 (strictEq_eq s s)) in E1.
Qed.

(** C1.  With a non-empty buffer, an accepted fragment is compared with
    the last entry only, in the order: starts-with or contains the last
    text (overwrite the last entry, refresh its time, no append); else
    the last text contains the fragment (discard); else equal (discard);
    else append.  Feeding "Tell me about" and then "Tell me about
    yourself" to a new grabber leaves one entry, with the longer text. *)
Theorem processText_merge_decision now rawText g lastEntry
    (Haccepted : accepted rawText = true)
    (Hlast : last (buffer g) = Some lastEntry) :
  buffer (processText now rawText g)
    = applyDecision (mergeDecision (text lastEntry) (trim rawText)) now (trim rawText) (buffer g)
  /\ isListening (processText now rawText g) = isListening g
  /\ forall t1 t2,
       buffer (processText t2 (lit "Tell me about yourself")
                 (processText t1 (lit "Tell me about") constructor))
       = [{| text := lit "Tell me about yourself"; time := t2 |}].
Proof.
  split; [|split].
  - rewrite processText_accepted, Hlast by done. unfold mergeDecision.
    destruct (startsWith (trim rawText) (text lastEntry)
              || includes (trim rawText) (text lastEntry)); [reflexivity|].
    destruct (includes (text lastEntry) (trim rawText)); [reflexivity|].
    rewrite (strictEq_sym (text lastEntry)).
    destruct (strictEq (trim rawText) (text lastEntry)); [reflexivity|].
    apply appendEntry_buffer.
  - rewrite processText_accepted, Hlast by done.
    destruct (startsWith (trim rawText) (text lastEntry)
              || includes (trim rawText) (text lastEntry)); [reflexivity|].
    destruct (includes (text lastEntry) (trim rawText)); [reflexivity|].
    destruct (strictEq (text lastEntry) (trim rawText)); reflexivity.
  - intros t1 t2. reflexivity.
Qed.

Lemma processText_merge_decision_witness :
  buffer (processText 2000 (lit "  Tell me about yourself ")
            {| buffer := [{| text := lit "Tell me about"; time := 1000 |}];
               isListening := true |})
  = [{| text := lit "Tell me about yourself"; time := 2000 |}].
Proof.
  exact (proj1 (processText_merge_decision 2000 (lit "  Tell me about yourself ")
                  {| buffer := [{| text := lit "Tell me about"; time := 1000 |}];
                     isListening := true |}
                  {| text := lit "Tell me about"; time := 1000 |}
                  eq_refl eq_refl)).
Defined.

(** C9.  A fragment whose trimmed form is shorter than two code units,
    or falls in one of the UI-noise classes (a clock time at the start,
    "AM"/"PM", "Today"/"Yesterday", a control verb at the start, two or
    three capital letters, "Live captions" at the start, three dots at
    the start), leaves the grabber as it was: no entry is made and none is
    modified.  The classes are what the patterns of [isUIText] decide;
    among them are "10:45", "Mute" and "...". *)
Theorem processText_ignores_noise now rawText g
    (Hnoise : (length (trim rawText) < 2)%nat \/ isNoise (trim rawText) = true) :
  processText now rawText g = g
  /\ (forall t, isUIText t = isNoise (trim t))
  /\ Forall (fun s => isUIText (lit s) = true)
       ["10:45"; "PM"; "Yesterday"; "Turn off camera"; "Mute"; "JK";
        "Live captions are on"; "..."]%string.
Proof.
  assert (Hui : forall t, isUIText t = isNoise (trim t))
    by (intros t; apply uiPatterns_isNoise).
  split; [|split; [done | repeat constructor]].
  apply processText_rejected. unfold accepted.
  rewrite Hui, trim_idem.
  destruct Hnoise as [Hshort | ->].
  - apply Nat.ltb_lt in Hshort. rewrite Hshort. by rewrite andb_false_r.
  - by rewrite andb_false_r.
Qed.

Lemma processText_ignores_noise_witness :
  processText 5 (lit " Mute ") {| buffer := [{| text := lit "Hello"; time := 1 |}];
                                 isListening := true |}
  = {| buffer := [{| text := lit "Hello"; time := 1 |}]; isListening := true |}.
Proof.
  exact (proj1 (processText_ignores_noise 5 (lit " Mute ")
                  {| buffer := [{| text := lit "Hello"; time := 1 |}]; isListening := true |}
                  (or_intror eq_refl))).
Defined.

(** C7.  [getRecentCaptions] returns the texts of exactly the entries
    whose age [now - time] is strictly below 90000 ms, in buffer order,
    joined with newlines; an entry aged exactly 90000 ms is left out; the
    grabber is the same after the call. *)
Theorem getRecentCaptions_window now g :
  let lines := filter (fun e => now - time e < 90000) (buffer g) in
  fst (getRecentCaptions now g) = join (lit (String "010" EmptyString)) (map text lines)
  /\ fst (getRecentCaptions now g) = recentWindow 90000 now (buffer g)
  /\ lines `sublist_of` buffer g
  /\ (forall e, e ∈ lines <-> e ∈ buffer g /\ now - time e < 90000)
  /\ (forall e, now - time e = 90000 -> e ∉ lines)
  /\ snd (getRecentCaptions now g) = g.
Proof.
  simpl. split; [done|]. split; [done|].
  split; [apply sublist_filter|].
  split; [|split; [|done]].
  - intros e. rewrite list_elem_of_filter. tauto.
  - intros e He Hin. apply list_elem_of_filter in Hin as [Hlt _]. lia.
Qed.

(** *** Adjacent elements *)

Section Adjacent.

Context {A : Type} (R : A -> A -> Prop).

Lemma adjacent_snoc (l : list A) (x : A) :
  adjacent R (l ++ [x]) <-> adjacent R l /\ (forall a, last l = Some a -> R a x).
Proof.
  induction l as [|a l IH]; simpl.
  - split; [intros _; split; [done | intros a Ha; discriminate] | done].
  - destruct l as [|b l]; simpl in *.
    + split.
      * intros [H _]. split; [done|]. by intros ? [= <-].
      * intros [_ H]. split; [by apply H | done].
    + rewrite IH. tauto.
Qed.

Lemma adjacent_drop1 (l : list A) : adjacent R l -> adjacent R (drop 1 l).
Proof.
  destruct l as [|a [|b l]]; simpl; try done. tauto.
Qed.

Lemma adjacent_lookup (l : list A) (i : nat) (a b : A) :
  adjacent R l -> l !! i = Some a -> l !! S i = Some b -> R a b.
Proof.
  revert i. induction l as [|x l IH]; intros i Hadj Ha Hb; [done|].
  destruct l as [|y l]; [done|]. destruct Hadj as [Hxy Hadj].
  destruct i as [|i].
  - simpl in Ha, Hb. by injection Ha as <-; injection Hb as <-.
  - by apply (IH i).
Qed.

End Adjacent.

(** *** Invariants of [processText] *)

Lemma evict_length (b : list CaptionEntry) :
  (length b <= 26)%nat -> (length (evict b) <= 25)%nat.
Proof.
  unfold evict. intros H. destruct (25 <? length b)%nat eqn:E.
  - rewrite length_drop. lia.
  - apply Nat.ltb_ge in E. lia.
Qed.

Lemma evict_last (b : list CaptionEntry) (e : CaptionEntry) :
  last (evict (b ++ [e])) = Some e.
Proof.
  unfold evict. destruct (25 <? length (b ++ [e]))%nat eqn:E.
  - apply Nat.ltb_lt in E. rewrite length_app in E. simpl in E.
    destruct b as [|x b]; simpl in *; [lia|]. rewrite drop_0. apply last_snoc.
  - apply last_snoc.
Qed.

Lemma evict_noContainment (b : list CaptionEntry) :
  noContainment b -> noContainment (evict b).
Proof.
  unfold evict. destruct (25 <? length b)%nat; [apply adjacent_drop1 | done].
Qed.

Lemma last_removelast (b : list CaptionEntry) (e : CaptionEntry) :
  last b = Some e -> b = removelast b ++ [e].
Proof.
  destruct b as [|x b] using rev_ind; [done|].
  rewrite last_snoc, removelast_last. by intros [= ->].
Qed.

Lemma processText_length now raw g :
  (length (buffer g) <= 25)%nat -> (length (buffer (processText now raw g)) <= 25)%nat.
Proof.
  intros Hlen. destruct (accepted raw) eqn:Hacc.
  - rewrite processText_accepted by done.
    destruct (last (buffer g)) as [l|] eqn:Hlast.
    + destruct (startsWith (trim raw) (text l) || includes (trim raw) (text l)).
      * simpl. rewrite (last_removelast _ _ Hlast), length_app in Hlen.
        rewrite length_app. simpl in *. lia.
      * destruct (includes (text l) (trim raw)); [done|].
        destruct (strictEq (text l) (trim raw)); [done|].
        rewrite appendEntry_buffer. apply evict_length.
        rewrite length_app. simpl. lia.
    + rewrite appendEntry_buffer. apply evict_length.
      rewrite length_app. simpl. lia.
  - by rewrite processText_rejected.
Qed.

Lemma processText_noContainment now raw g :
  noContainment (buffer g) -> noContainment (buffer (processText now raw g)).
Proof.
  intros Hinv. destruct (accepted raw) eqn:Hacc.
  - rewrite processText_accepted by done.
    destruct (last (buffer g)) as [l|] eqn:Hlast.
    + rewrite (last_removelast _ _ Hlast) in Hinv.
      apply adjacent_snoc in Hinv as [Hinit Hprev].
      destruct (startsWith (trim raw) (text l) || includes (trim raw) (text l)) eqn:Ha.
      * simpl. apply adjacent_snoc. split; [done|].
        intros p Hp. simpl. specialize (Hprev p Hp).
        destruct (includes (text p) (trim raw)) eqn:Hpt; [|done].
        assert (includes (trim raw) (text l) = true) as Htl.
        { apply orb_true_iff in Ha as [Hs|Hi]; [by apply startsWith_includes | done]. }
        by rewrite (includes_trans _ _ _ Hpt Htl) in Hprev.
      * destruct (includes (text l) (trim raw)) eqn:Hb.
        { rewrite (last_removelast _ _ Hlast). by apply adjacent_snoc. }
        destruct (strictEq (text l) (trim raw)).
        { rewrite (last_removelast _ _ Hlast). by apply adjacent_snoc. }
        rewrite appendEntry_buffer. apply evict_noContainment, adjacent_snoc.
        split.
        -- rewrite (last_removelast _ _ Hlast). by apply adjacent_snoc.
        -- intros p Hp. rewrite Hlast in Hp. by injection Hp as <-.
    + rewrite appendEntry_buffer. apply evict_noContainment.
      apply last_None in Hlast as ->. by simpl.
  - by rewrite processText_rejected.
Qed.

Lemma ingest_cons input inputs g :
  ingest (input :: inputs) g = ingest inputs (processText (fst input) (snd input) g).
Proof. reflexivity. Qed.

Lemma ingest_length inputs g :
  (length (buffer g) <= 25)%nat -> (length (buffer (ingest inputs g)) <= 25)%nat.
Proof.
  revert g. induction inputs as [|input inputs IH]; intros g Hlen; [done|].
  rewrite ingest_cons. by apply IH, processText_length.
Qed.

Lemma ingest_noContainment inputs g :
  noContainment (buffer g) -> noContainment (buffer (ingest inputs g)).
Proof.
  revert g. induction inputs as [|input inputs IH]; intros g Hinv; [done|].
  rewrite ingest_cons. by apply IH, processText_noContainment.
Qed.

(** An accepted fragment unrelated to the last text is appended. *)
Lemma processText_appends now raw g :
  accepted raw = true ->
  separated (text <$> last (buffer g)) [trim raw] = true ->
  buffer (processText now raw g) = evict (buffer g ++ [entryOf (now, raw)]).
Proof.
  intros Hacc Hsep. rewrite processText_accepted by done.
  destruct (last (buffer g)) as [l|]; simpl in Hsep; [|apply appendEntry_buffer].
  rewrite andb_true_r in Hsep. unfold unrelated in Hsep.
  apply andb_true_iff in Hsep as [Hlt Htl].
  apply negb_true_iff in Hlt, Htl. rewrite Htl, Hlt, orb_false_r.
  destruct (startsWith (trim raw) (text l)) eqn:Hs.
  { apply startsWith_includes in Hs. congruence. }
  destruct (strictEq (text l) (trim raw)) eqn:He.
  { apply strictEq_eq in He. rewrite He, includes_refl in Hlt. discriminate. }
  apply appendEntry_buffer.
Qed.

(** A run of accepted fragments, each unrelated to its predecessor,
    leaves the last 25 of all entries, oldest first. *)
Lemma ingest_separated inputs g :
  (length (buffer g) <= 25)%nat ->
  forallb accepted (map snd inputs) = true ->
  separated (text <$> last (buffer g)) (map (fun input => trim (snd input)) inputs) = true ->
  buffer (ingest inputs g)
  = drop (length (buffer g) + length inputs - 25) (buffer g ++ map entryOf inputs).
Proof.
  revert g. induction inputs as [|[now raw] inputs IH]; intros g Hlen Hacc Hsep.
  - simpl. rewrite app_nil_r. replace (length (buffer g) + 0 - 25)%nat with 0%nat by lia.
    by rewrite drop_0.
  - rewrite ingest_cons. simpl in Hacc, Hsep |- *.
    apply andb_true_iff in Hacc as [Hacc Haccs].
    apply andb_true_iff in Hsep as [Hsep Hseps].
    assert (Hstep : buffer (processText now raw g) = evict (buffer g ++ [entryOf (now, raw)])).
    { apply processText_appends; [done|]. simpl. by rewrite Hsep. }
    rewrite IH; [| by apply processText_length | done |].
    + rewrite Hstep. unfold evict. rewrite length_app. simpl.
      destruct (25 <? length (buffer g) + 1)%nat eqn:E.
      * apply Nat.ltb_lt in E. rewrite length_drop, length_app. simpl.
        rewrite <- (drop_app_le _ _ 1) by (rewrite length_app; simpl; lia).
        rewrite drop_drop, <- app_assoc. simpl. f_equal. lia.
      * apply Nat.ltb_ge in E. rewrite length_app, <- app_assoc. simpl. f_equal. lia.
    + rewrite Hstep, evict_last. done.
Qed.

(** C2.  The buffer never holds more than 25 entries: the bound is kept
    by every call of [processText] and so holds after every run from the
    empty buffer; an append to a full buffer drops the oldest entry.
    After 30 accepted utterances, each unrelated to the one before it,
    fed to a new grabber, the buffer is the last 25 of them in the order
    of arrival. *)
Theorem buffer_bounded_fifo (inputs : list (Z * jsstring))
    (Hcount : length inputs = 30%nat)
    (Haccepted : forallb accepted (map snd inputs) = true)
    (Hseparated : separated None (map (fun input => trim (snd input)) inputs) = true) :
  buffer (ingest inputs constructor) = drop 5 (map entryOf inputs)
  /\ length (buffer (ingest inputs constructor)) = 25%nat
  /\ (forall events, (length (buffer (ingest events constructor)) <= 25)%nat)
  /\ (forall now rawText g,
        (length (buffer g) <= 25)%nat ->
        (length (buffer (processText now rawText g)) <= 25)%nat)
  /\ (forall now rawText g,
        length (buffer g) = 25%nat ->
        accepted rawText = true ->
        separated (text <$> last (buffer g)) [trim rawText] = true ->
        buffer (processText now rawText g) = drop 1 (buffer g) ++ [entryOf (now, rawText)]).
Proof.
  assert (Hfifo : buffer (ingest inputs constructor) = drop 5 (map entryOf inputs)).
  { rewrite ingest_separated; simpl; [by rewrite Hcount | lia | done | done]. }
  split; [done|]. split.
  { rewrite Hfifo, length_drop, length_map, Hcount. done. }
  split; [intros events; apply ingest_length; simpl; lia|].
  split; [intros now raw g; apply processText_length|].
  intros now raw g Hfull Hacc Hsep.
  rewrite processText_appends by done. unfold evict.
  rewrite length_app, Hfull. simpl. apply drop_app_le. lia.
Qed.

Lemma buffer_bounded_fifo_witness :
  buffer (ingest thirtyUtterances constructor) = drop 5 (map entryOf thirtyUtterances).
Proof.
  exact (proj1 (buffer_bounded_fifo thirtyUtterances eq_refl eq_refl eq_refl)).
Defined.

(** C8.  In every state reached from a new grabber by any sequence of
    [processText] calls, two entries next to each other never have the
    same text. *)
Theorem no_adjacent_duplicates (inputs : list (Z * jsstring)) (i : nat) (a b : CaptionEntry)
    (Ha : buffer (ingest inputs constructor) !! i = Some a)
    (Hb : buffer (ingest inputs constructor) !! S i = Some b) :
  text a <> text b.
Proof.
  apply not_includes_neq.
  apply (adjacent_lookup (fun p q => includes (text p) (text q) = false)
           (buffer (ingest inputs constructor)) i a b); [|done|done].
  apply ingest_noContainment. by simpl.
Qed.

Lemma no_adjacent_duplicates_witness :
  lit "Hello there" <> lit "How are you".
Proof.
  exact (no_adjacent_duplicates
           [(1, lit "Hello"); (2, lit "Hello there"); (3, lit "How are you"); (4, lit "are you")]
           0 {| text := lit "Hello there"; time := 2 |}
           {| text := lit "How are you"; time := 3 |} eq_refl eq_refl).
Defined.

(** C10.  A fragment equal to the last entry's text takes the
    incremental-update branch (an equal string starts with it): the text
    stays, the entry's time becomes the current time, nothing is
    appended.  The entry is then inside the 90-second window of any read
    made less than 90000 ms later, and a run of such duplicates leaves
    the entry stamped with the time of the last one. *)
Theorem duplicate_refreshes_time now rawText g b lastEntry
    (Haccepted : accepted rawText = true)
    (Hbuffer : buffer g = b ++ [lastEntry])
    (Hequal : trim rawText = text lastEntry) :
  processText now rawText g
    = set_buffer g (b ++ [{| text := text lastEntry; time := now |}])
  /\ mergeDecision (text lastEntry) (trim rawText) = IncrementalUpdate
  /\ (forall later,
        later - now < 90000 ->
        {| text := text lastEntry; time := now |}
          ∈ filter (fun e => later - time e < 90000) (buffer (processText now rawText g)))
  /\ (forall times,
        buffer (ingest (map (fun t => (t, rawText)) times) g)
        = b ++ [{| text := text lastEntry;
                   time := default (time lastEntry) (last times) |}]).
Proof.
  assert (Hstep : forall t g' l, buffer g' = b ++ [l] -> text l = text lastEntry ->
            processText t rawText g' = set_buffer g' (b ++ [{| text := text lastEntry; time := t |}])).
  { intros t g' l Hg' Hl. rewrite processText_accepted by done.
    rewrite Hg', last_snoc, removelast_last, Hequal, Hl.
    by rewrite includes_refl, orb_true_r. }
  split; [by apply (Hstep now g lastEntry)|]. split.
  { unfold mergeDecision. by rewrite Hequal, includes_refl, orb_true_r. }
  split.
  { intros later Hlater. rewrite (Hstep now g lastEntry) by done. simpl.
    apply list_elem_of_filter. split; [done|]. apply elem_of_app. right. by left. }
  intros times. revert g lastEntry Hbuffer Hequal Hstep.
  induction times as [|t times IH]; intros g lastEntry Hbuffer Hequal Hstep.
  - simpl. rewrite Hbuffer. by destruct lastEntry.
  - simpl map. rewrite ingest_cons. simpl fst. simpl snd.
    rewrite (IH _ {| text := text lastEntry; time := t |}).
    + destruct times as [|z times]; [reflexivity|].
      change (last (t :: z :: times)) with (last (z :: times)).
      destruct (last (z :: times)) eqn:E; [reflexivity|]. by apply last_None in E.
    + by rewrite (Hstep t g lastEntry).
    + done.
    + intros t' g' l Hg' Hl. by apply (Hstep t' g' l).
Qed.

Lemma duplicate_refreshes_time_witness :
  processText 5000 (lit "Tell me about yourself")
    {| buffer := [{| text := lit "Tell me about yourself"; time := 1000 |}];
       isListening := true |}
  = {| buffer := [{| text := lit "Tell me about yourself"; time := 5000 |}];
       isListening := true |}.
Proof.
  exact (proj1 (duplicate_refreshes_time 5000 (lit "Tell me about yourself")
                  {| buffer := [{| text := lit "Tell me about yourself"; time := 1000 |}];
                     isListening := true |}
                  [] {| text := lit "Tell me about yourself"; time := 1000 |}
                  eq_refl eq_refl eq_refl)).
Defined.

End GrabberFacts.

(* ===================================================================== *)
(** ** Facts about the background worker                                  *)
(* ===================================================================== *)

Module WorkerFacts.

Import Js Worker Spec Scenario.
Open Scope string_scope.

(** *** Property reads *)

Lemma get_defined (v : value) (key : string) :
  nullish v = false -> get v key = Normal (propertyOf v key).
Proof.
  intros H. unfold propertyOf, getOpt. rewrite H.
  destruct v; try done; simpl.
  - by destruct (index_of_key key) as [i|], s.
  - by destruct (index_of_key key).
Qed.

Lemma getOpt_total (v : value) (key : string) : getOpt v key = Normal (propertyOf v key).
Proof.
  destruct (nullish v) eqn:H.
  - unfold propertyOf, getOpt. by rewrite H.
  - unfold getOpt at 1. rewrite H. by apply get_defined.
Qed.

Lemma truthy_defined (v : value) : truthy v = true -> nullish v = false.
Proof. by destruct v. Qed.

Lemma get_stored (stored : list (string * value)) (key : string) :
  get (Obj stored) key = Normal (storedValue stored key).
Proof. reflexivity. Qed.

(** *** Conversions *)

Lemma ToString_convertible rt (v : value) :
  convertible v = true -> ToString rt v = Normal (toString rt v).
Proof. intros H. unfold ToString. by rewrite H. Qed.

Lemma ToString_result rt (v : value) (s : string) :
  ToString rt v = Normal s -> convertible v = true /\ s = toString rt v.
Proof. unfold ToString. destruct (convertible v); [by intros [= <-] | done]. Qed.

Lemma chars_app (a b : string) :
  list_ascii_of_string (a ++ b) = (list_ascii_of_string a ++ list_ascii_of_string b)%list.
Proof. induction a as [|c a IH]; simpl; [done | by rewrite IH]. Qed.

Lemma chars_concat (c : ascii) (sep x : string) (parts : list string) :
  In x parts ->
  In c (list_ascii_of_string x) ->
  In c (list_ascii_of_string (String.concat sep parts)).
Proof.
  intros Hx Hc. induction parts as [|y parts IH]; [done|].
  destruct parts as [|z parts].
  - destruct Hx as [-> | []]. done.
  - change (String.concat sep (y :: z :: parts))
      with (y ++ sep ++ String.concat sep (z :: parts)).
    rewrite !chars_app, !in_app_iff. destruct Hx as [-> | Hx]; auto.
Qed.

(** The text of a value that does not convert holds a bracket, from
    "[object Object]". *)
Lemma toString_bracket rt (v : value) :
  convertible v = false -> In "["%char (list_ascii_of_string (toString rt v)).
Proof.
  revert v. fix toString_bracket 1.
  intros v. destruct v as [| |b|n|s|items|props]; try done.
  - intros Hitems. cbn [convertible] in Hitems. cbn [toString].
    induction items as [|x items IH]; [done|].
    cbn [forallb] in Hitems. apply andb_false_iff in Hitems as [Hx | Hitems].
    + apply (chars_concat _ _ (toString rt x)).
      * left. cbn [List.map]. by destruct x.
      * by apply toString_bracket.
    + specialize (IH Hitems). cbn [List.map].
      destruct (List.map _ items) as [|y parts] eqn:Hparts; [done|].
      change (String.concat "," (?a :: y :: parts))
        with (a ++ "," ++ String.concat "," (y :: parts)).
      rewrite !chars_app, !in_app_iff. auto.
  - intros _. simpl. auto.
Qed.

(** The keys of [PROVIDERS_CONFIG] are the names of the five providers. *)
Lemma config_key (key : string) :
  nullish (propertyOf PROVIDERS_CONFIG key) = false ->
  key = "pollinations" \/ key = "openai" \/ key = "gemini" \/ key = "openrouter"
  \/ key = "groq".
Proof.
  unfold PROVIDERS_CONFIG, propertyOf, getOpt. cbn [nullish get assoc].
  destruct (String.eqb "pollinations" key) eqn:E1; [apply String.eqb_eq in E1; auto|].
  destruct (String.eqb "openai" key) eqn:E2; [apply String.eqb_eq in E2; auto|].
  destruct (String.eqb "gemini" key) eqn:E3; [apply String.eqb_eq in E3; auto|].
  destruct (String.eqb "openrouter" key) eqn:E4; [apply String.eqb_eq in E4; auto|].
  destruct (String.eqb "groq" key) eqn:E5; [apply String.eqb_eq in E5; auto 6|].
  done.
Qed.

(** A value whose text is the name of a provider converts to it. *)
Lemma configured_convertible rt (v : value) :
  nullish (propertyOf PROVIDERS_CONFIG (toString rt v)) = false ->
  ToString rt v = Normal (toString rt v).
Proof.
  intros Hconfig. apply ToString_convertible.
  destruct (convertible v) eqn:Hv; [done|].
  pose proof (toString_bracket rt v Hv) as Hbracket.
  destruct (config_key _ Hconfig) as [H|[H|[H|[H|H]]]]; rewrite H in Hbracket;
    simpl in Hbracket; intuition discriminate.
Qed.

(** The [name] of a provider is a text. *)
Lemma config_name rt (key : string) :
  nullish (propertyOf PROVIDERS_CONFIG key) = false ->
  ToString rt (propertyOf (propertyOf PROVIDERS_CONFIG key) "name")
  = Normal (toString rt (propertyOf (propertyOf PROVIDERS_CONFIG key) "name")).
Proof.
  intros Hconfig.
  by destruct (config_key _ Hconfig) as [H|[H|[H|[H|H]]]]; rewrite H.
Qed.

(** *** Monad equations *)

Lemma bind_lift_Normal {A B} (a : A) (f : A -> M B) : bind (lift (Normal a)) f = f a.
Proof. reflexivity. Qed.

Lemma bind_lift_Throw {A B} (e : Error) (f : A -> M B) :
  bind (lift (Throw e)) f = lift (Throw e).
Proof. reflexivity. Qed.

Lemma bind_ret {A B} (a : A) (f : A -> M B) : bind (ret a) f = f a.
Proof. reflexivity. Qed.

Ltac run_binds := repeat (rewrite ?bind_lift_Normal, ?bind_ret; cbv beta).

(** *** Computations that only send requests *)

Section LogsOnly.

Context (rt : Runtime) (net : Network).

Lemma logsOnly_ret {A} (a : A) : logsOnly (ret a).
Proof. intros [f s]. unfold ret. simpl. by rewrite app_nil_r. Qed.

Lemma logsOnly_lift {A} (c : completion A) : logsOnly (lift c).
Proof. intros [f s]. unfold lift. simpl. by rewrite app_nil_r. Qed.

Lemma logsOnly_fetch (request : Request) : logsOnly (fetch net request).
Proof. by intros [f s]. Qed.

Lemma logsOnly_bind {A B} (m : M A) (f : A -> M B) :
  logsOnly m -> (forall a, logsOnly (f a)) -> logsOnly (bind m f).
Proof.
  intros Hm Hf w. unfold bind. rewrite (Hm w).
  destruct (m initial) as [[a|e] w1]; simpl.
  - rewrite (Hf a _), (Hf a w1). simpl. by rewrite app_assoc.
  - done.
Qed.

Lemma logsOnly_try {A} (m : M A) (h : Error -> M A) :
  logsOnly m -> (forall e, logsOnly (h e)) -> logsOnly (try_catch m h).
Proof.
  intros Hm Hh w. unfold try_catch. rewrite (Hm w).
  destruct (m initial) as [[a|e] w1]; simpl.
  - done.
  - rewrite (Hh e _), (Hh e w1). simpl. by rewrite app_assoc.
Qed.

Lemma logsOnly_if {A} (b : bool) (m1 m2 : M A) :
  logsOnly m1 -> logsOnly m2 -> logsOnly (if b then m1 else m2).
Proof. by destruct b. Qed.

End LogsOnly.

Ltac logs_step :=
  first [ apply logsOnly_ret | apply logsOnly_lift | apply logsOnly_fetch
        | apply logsOnly_bind; [|intros ?]
        | apply logsOnly_try; [|intros ?]
        | apply logsOnly_if ].

Ltac logs := repeat logs_step.

Lemma logsOnly_getRagContext rt net query : logsOnly (getRagContext rt net query).
Proof. unfold getRagContext. logs. Qed.

Lemma logsOnly_dispatch rt net provider apiKey model systemPrompt :
  logsOnly (dispatch rt net provider apiKey model systemPrompt).
Proof.
  unfold dispatch, callPollinations, callGemini, callOpenRouter, callGroq, callOpenAI,
    callChat.
  logs.
Qed.

(** *** Steps 3 and 4: one result is always sent *)

(** [respond] never throws and sends exactly one value, computed from
    the completion of the provider call; an exception thrown by that call
    is sent as a network error. *)
Lemma respond_run rt net provider apiKey model ragContext payload w :
  let call := dispatch rt net provider apiKey model
                (buildSystemPrompt ragContext (recentCaptions payload)) initial in
  respond rt net provider apiKey model ragContext payload w
  = (Normal tt,
     {| fetched := fetched w ++ fetched (snd call);
        sent := sent w ++ [outcomeOf ragContext (fst call)] |}).
Proof.
  simpl. unfold respond, try_catch, bind.
  rewrite (logsOnly_dispatch rt net provider apiKey model _ w).
  destruct (dispatch rt net provider apiKey model _ initial) as [[response|e] w1]; simpl.
  - destruct (String.eqb ragContext EmptyString); simpl; [done|].
    unfold lift. destruct (get response "text") as [text|e]; [|done].
    by destruct (truthy text).
  - done.
Qed.

(** *** Steps 1 and 2: settings and the key check *)

(** With a provider that [PROVIDERS_CONFIG] knows, the handler reduces
    to the key check followed by retrieval and [respond]. *)
Lemma handler_configured rt net stored payload :
  let key := toString rt (providerOf stored) in
  let config := propertyOf PROVIDERS_CONFIG key in
  nullish config = false ->
  handleGenerateResponse rt net stored payload
  = if truthy (propertyOf config "requiresKey") && negb (truthy (apiKeyOf rt stored)) then
      sendResponse (errorResult ("No API Key found for "
                                 ++ toString rt (propertyOf config "name")
                                 ++ ". Please open extension settings."))
    else
      bind (if ragEnabledOf stored then getRagContext rt net (recentCaptions payload)
            else ret EmptyString)
           (fun ragContext =>
              respond rt net (providerOf stored) (apiKeyOf rt stored)
                      (modelOf stored config) ragContext payload).
Proof.
  intros key config Hconfig.
  assert (Hget : get PROVIDERS_CONFIG key = Normal config) by reflexivity.
  assert (Hkeys : get (or_else (storedValue stored "apiKeys") (Obj [])) key
                  = Normal (propertyOf (or_else (storedValue stored "apiKeys") (Obj [])) key)).
  { apply get_defined. unfold or_else.
    destruct (truthy (storedValue stored "apiKeys")) eqn:E; [by apply truthy_defined | done]. }
  unfold handleGenerateResponse. rewrite !get_stored. run_binds.
  change (or_else (storedValue stored "provider") (Str "pollinations")) with (providerOf stored).
  rewrite (configured_convertible rt (providerOf stored) Hconfig). fold key. run_binds.
  rewrite Hget.
  assert (Hmodel : orElseM (storedValue stored "model")
                     (bind (lift (Normal config)) (fun config0 =>
                      bind (lift (getOpt config0 "defaultModel")) (fun defaultModel =>
                      ret (or_else defaultModel (Str "openai")))))
                   = ret (modelOf stored config)).
  { unfold orElseM, modelOf. run_binds. rewrite getOpt_total. run_binds.
    unfold or_else. destruct (truthy (storedValue stored "model")) eqn:E; [by rewrite E | done]. }
  rewrite Hmodel. run_binds. rewrite Hget. run_binds. rewrite Hkeys. run_binds.
  rewrite !(get_defined config) by done. run_binds.
  destruct (truthy _ && negb _); [|reflexivity].
  run_binds. subst config. rewrite (config_name rt key Hconfig). run_binds.
  reflexivity.
Qed.

(** With a provider that converts to a key [PROVIDERS_CONFIG] has no
    own entry for, reading [providerConfig.requiresKey] throws before
    anything is sent. *)
Lemma handler_unconfigured rt net stored payload w :
  convertible (providerOf stored) = true ->
  propertyOf PROVIDERS_CONFIG (toString rt (providerOf stored)) = Undefined ->
  handleGenerateResponse rt net stored payload w
  = (Throw (TypeError "Cannot read properties of undefined (reading 'requiresKey')"), w).
Proof.
  intros Hprovider Hconfig.
  assert (Hget : get PROVIDERS_CONFIG (toString rt (providerOf stored)) = Normal Undefined).
  { rewrite <- Hconfig. reflexivity. }
  assert (Hkeys : exists k, get (or_else (storedValue stored "apiKeys") (Obj []))
                              (toString rt (providerOf stored)) = Normal k).
  { eexists. apply get_defined. unfold or_else.
    destruct (truthy (storedValue stored "apiKeys")) eqn:E; [by apply truthy_defined | done]. }
  destruct Hkeys as [k Hk].
  unfold handleGenerateResponse. rewrite !get_stored. run_binds.
  change (or_else (storedValue stored "provider") (Str "pollinations")) with (providerOf stored).
  rewrite (ToString_convertible rt _ Hprovider). unfold orElseM.
  destruct (truthy (storedValue stored "model"));
    run_binds; rewrite Hget; run_binds; rewrite ?getOpt_total; run_binds;
    rewrite ?Hget; run_binds; rewrite Hk; run_binds; reflexivity.
Qed.

(** With a provider that does not convert to a property key, the lookup
    in [PROVIDERS_CONFIG] throws before anything is sent. *)
Lemma handler_unconvertible rt net stored payload w :
  convertible (providerOf stored) = false ->
  handleGenerateResponse rt net stored payload w = (Throw notConvertible, w).
Proof.
  intros Hprovider.
  unfold handleGenerateResponse. rewrite !get_stored. run_binds.
  change (or_else (storedValue stored "provider") (Str "pollinations")) with (providerOf stored).
  unfold ToString. rewrite Hprovider. unfold orElseM.
  by destruct (truthy (storedValue stored "model")).
Qed.

Lemma propertyOf_Obj (props : list (string * value)) (key : string) :
  propertyOf (Obj props) key = default Undefined (assoc key props).
Proof. reflexivity. Qed.

Lemma assoc_cases (key : string) (props : list (string * value)) :
  Forall (fun kv => nullish (snd kv) = false) props ->
  default Undefined (assoc key props) = Undefined
  \/ nullish (default Undefined (assoc key props)) = false.
Proof.
  induction 1 as [|[k v] props Hv _ IH]; simpl; [by left|].
  destruct (String.eqb k key); [by right | done].
Qed.

(** An entry of [PROVIDERS_CONFIG] is an object, and any other key
    reads as [undefined]. *)
Lemma config_cases (key : string) :
  propertyOf PROVIDERS_CONFIG key = Undefined
  \/ nullish (propertyOf PROVIDERS_CONFIG key) = false.
Proof.
  unfold PROVIDERS_CONFIG. rewrite propertyOf_Obj.
  apply assoc_cases. repeat constructor.
Qed.

(** *** Retrieval *)

(** [getRagContext] never throws, sends one request and no response. *)
Lemma getRagContext_total rt net query w :
  exists ragContext,
    getRagContext rt net query w
    = (Normal ragContext,
       {| fetched := fetched w ++ [searchRequest rt query]; sent := sent w |}).
Proof.
  unfold getRagContext, try_catch, bind, fetch, lift, ret. simpl.
  destruct (net (searchRequest rt query)) as [response|e]; [|by eexists].
  destruct (ok response); simpl; [|by eexists].
  destruct (json response) as [data|e]; [|by eexists].
  destruct (relevantChunks rt data); by eexists.
Qed.

Lemma getRagContext_failure rt net query w :
  retrievalFails rt net query ->
  getRagContext rt net query w
  = (Normal EmptyString,
     {| fetched := fetched w ++ [searchRequest rt query]; sent := sent w |}).
Proof.
  unfold retrievalFails, getRagContext, try_catch, bind, fetch, lift, ret. simpl.
  destruct (net (searchRequest rt query)) as [response|e]; [|done].
  intros [-> | Hbody]; [done|].
  destruct (ok response); simpl; [|done].
  destruct (json response) as [data|e]; [|done].
  by destruct Hbody as [e ->].
Qed.

(** With a configured provider the handler never throws and sends
    exactly one value. *)
Lemma configured_provider_responds rt net stored payload :
  nullish (propertyOf PROVIDERS_CONFIG (toString rt (providerOf stored))) = false ->
  exists result w,
    handleGenerateResponse rt net stored payload initial = (Normal tt, w)
    /\ sent w = [result].
Proof.
  intros Hconfig. rewrite handler_configured by done.
  destruct (truthy _ && negb _).
  - eexists _, _. split; reflexivity.
  - unfold bind.
    assert (Hctx : exists ragContext w1,
               (if ragEnabledOf stored
                then getRagContext rt net (recentCaptions payload)
                else ret EmptyString) initial = (Normal ragContext, w1) /\ sent w1 = []).
    { destruct (ragEnabledOf stored).
      - destruct (getRagContext_total rt net (recentCaptions payload) initial) as [c ->].
        eexists _, _. split; reflexivity.
      - eexists _, _. split; reflexivity. }
    destruct Hctx as [ragContext [w1 [-> Hsent]]].
    rewrite respond_run. simpl. rewrite Hsent. eexists _, _. split; reflexivity.
Qed.

(** An exception thrown by the provider call is sent as a network
    error. *)
Lemma transport_exception_rewrapped rt net provider apiKey model ragContext payload e w1 :
  dispatch rt net provider apiKey model
    (buildSystemPrompt ragContext (recentCaptions payload)) initial = (Throw e, w1) ->
  respond rt net provider apiKey model ragContext payload initial
  = (Normal tt,
     {| fetched := fetched w1;
        sent := [errorResult ("Network Error: " ++ message e)] |}).
Proof. intros H. rewrite respond_run. simpl. by rewrite H. Qed.

(** *** The claims about the handler *)

(** C3.  The claim is that every trigger ends in a returned result,
    whatever provider the settings hold.  With the stored provider
    "anthropic", which [PROVIDERS_CONFIG] has no entry for, the handler
    throws a [TypeError] on [providerConfig.requiresKey], outside its
    [try] block: the promise is rejected, no request is made and nothing
    is passed to [sendResponse]. *)
Theorem unknown_provider_unhandled rt net payload :
  handleGenerateResponse rt net [("provider", Str "anthropic")] payload initial
  = (Throw (TypeError "Cannot read properties of undefined (reading 'requiresKey')"),
     {| fetched := []; sent := [] |}).
Proof. by apply handler_unconfigured. Qed.

(** C4.  When the stored provider needs a key and the key the handler
    resolves for it is empty or absent, the handler sends the missing-key
    error and makes no request at all: neither the retrieval call nor a
    provider call. *)
Theorem missing_credential_no_calls rt net stored payload provider
    (Hprovider : storedValue stored "provider" = Str provider)
    (Hrequires : requiresCredential provider = true)
    (Hkey : truthy (apiKeyOf rt stored) = false) :
  handleGenerateResponse rt net stored payload initial
  = (Normal tt, {| fetched := []; sent := [missingKeyResult rt provider] |}).
Proof.
  assert (Hp : providerOf stored = Str provider).
  { unfold providerOf. rewrite Hprovider. by destruct provider. }
  assert (Hconfig : nullish (propertyOf PROVIDERS_CONFIG provider) = false).
  { destruct (config_cases provider) as [Hu|]; [|done].
    unfold requiresCredential in Hrequires. by rewrite Hu in Hrequires. }
  rewrite handler_configured; rewrite Hp;
    change (toString rt (Str provider)) with provider; [|done].
  unfold requiresCredential in Hrequires. rewrite Hrequires, Hkey. reflexivity.
Qed.

Lemma missing_credential_no_calls_witness :
  handleGenerateResponse exampleRuntime unreachable
    [("provider", Str "openai"); ("apiKeys", Obj [("groq", Str "gsk_1")])]
    {| recentCaptions := "What is a GDG?" |} initial
  = (Normal tt,
     {| fetched := [];
        sent := [errorResult "No API Key found for OpenAI. Please open extension settings."] |}).
Proof.
  exact (missing_credential_no_calls exampleRuntime unreachable
           [("provider", Str "openai"); ("apiKeys", Obj [("groq", Str "gsk_1")])]
           {| recentCaptions := "What is a GDG?" |} "openai" eq_refl eq_refl eq_refl).
Defined.

Lemma represents_aboveThreshold rt v s :
  represents v s -> aboveThreshold rt v = Normal (relevant s).
Proof.
  intros [props [-> [_ [_ Hsim]]]]. unfold aboveThreshold. simpl. by rewrite Hsim.
Qed.

Lemma represents_formatChunk rt v s :
  represents v s -> formatChunk rt v = Normal (formatSnippet s).
Proof.
  intros [props [-> [Htitle [Hcontent _]]]]. unfold formatChunk. simpl.
  by rewrite Htitle, Hcontent.
Qed.

Lemma filterC_represents rt results snippets :
  Forall2 represents results snippets ->
  exists kept,
    filterC (aboveThreshold rt) results = Normal kept
    /\ Forall2 represents kept (List.filter relevant snippets).
Proof.
  induction 1 as [|v s results snippets Hv _ [kept [Hkept Hrep]]]; simpl.
  - by exists [].
  - rewrite (represents_aboveThreshold rt v s Hv), Hkept. simpl.
    destruct (relevant s); eexists; split; try done. by constructor.
Qed.

Lemma mapC_represents rt kept snippets :
  Forall2 represents kept snippets ->
  mapC (formatChunk rt) kept = Normal (List.map formatSnippet snippets).
Proof.
  induction 1 as [|v s kept snippets Hv _ IH]; simpl; [done|].
  by rewrite (represents_formatChunk rt v s Hv), IH.
Qed.

Lemma filter_length_le {A} (p : A -> bool) (l : list A) :
  (length (List.filter p l) <= length l)%nat.
Proof. induction l as [|x l IH]; simpl; [done|]. destruct (p x); simpl; lia. Qed.

(** C5 (amended).  When retrieval succeeds, the context is made of
    exactly the returned snippets whose similarity is at least 0.5 (0.49
    is left out, 0.50 is kept), in the order returned, each written
    "[title]: content", with a blank line between blocks.  The request
    asks the service for 3 results; the core itself does not cut the
    list, so the context has at most 3 blocks whenever the service
    returns at most 3 snippets. *)
Theorem getRagContext_keeps_relevant rt net query response data results snippets
    (Hreply : net (searchRequest rt query) = Normal response)
    (Hok : ok response = true)
    (Hjson : json response = Normal data)
    (Hresults : get data "results" = Normal (Arr results))
    (Hshape : Forall2 represents results snippets) :
  getRagContext rt net query initial
  = (Normal (String.concat (nl ++ nl)
               (List.map formatSnippet (List.filter relevant snippets))),
     {| fetched := [searchRequest rt query]; sent := [] |})
  /\ ((length snippets <= 3)%nat ->
      String.concat (nl ++ nl) (List.map formatSnippet (List.filter relevant snippets))
      = knowledgeBlock snippets)
  /\ body (searchRequest rt query)
     = Some (JSON_stringify rt (Obj [("query", Str query); ("limit", Num (Finite 3))]))
  /\ (forall t c,
        relevant {| title := t; content := c; similarity := 49 # 100 |} = false
        /\ relevant {| title := t; content := c; similarity := 50 # 100 |} = true).
Proof.
  split; [|split; [|split]].
  - destruct (filterC_represents rt results snippets Hshape) as [kept [Hkept Hrep]].
    unfold getRagContext, try_catch, bind, fetch, lift, ret. simpl.
    rewrite Hreply, Hok. simpl. rewrite Hjson.
    unfold relevantChunks. rewrite Hresults. simpl. rewrite Hkept. simpl.
    by rewrite (mapC_represents rt kept _ Hrep).
  - intros Hlen. unfold knowledgeBlock. rewrite take_ge; [done|].
    pose proof (filter_length_le relevant snippets). lia.
  - reflexivity.
  - intros t c. split; reflexivity.
Qed.

Lemma getRagContext_keeps_relevant_witness :
  getRagContext exampleRuntime (answering (searchResults fourSnippets)) "What is a GDG?" initial
  = (Normal (String.concat (nl ++ nl) (List.map formatSnippet fourSnippets)),
     {| fetched := [searchRequest exampleRuntime "What is a GDG?"]; sent := [] |}).
Proof.
  refine (proj1 (getRagContext_keeps_relevant exampleRuntime
                   (answering (searchResults fourSnippets)) "What is a GDG?"
                   _ _ (List.map snippetValue fourSnippets) fourSnippets
                   eq_refl eq_refl eq_refl eq_refl _)).
  repeat constructor; eexists; repeat split; reflexivity.
Defined.

(** C5 as first stated fails: when the service returns four snippets
    above the threshold, the context holds all four, not the first
    three. *)
Lemma getRagContext_keeps_fourth :
  fst (getRagContext exampleRuntime (answering (searchResults fourSnippets))
         "What is a GDG?" initial)
  <> Normal (knowledgeBlock fourSnippets).
Proof. vm_compute. discriminate. Qed.

(** C6.  When retrieval fails (rejected request, status outside 2xx,
    body that is not JSON or not of the expected shape), [getRagContext]
    returns the empty context without throwing, and the handler goes on
    as if retrieval were switched off: it completes the same way and
    sends the same result as with [ragEnabled] stored as [false]; the one
    difference is the search request at the head of the requests made.
    With retrieval enabled, a configured provider and the key check
    passed, the handler therefore returns normally after the search
    request and the requests of the provider call, made with the prompt
    that has no knowledge-base block, and it sends exactly one result:
    the provider's own result, or the provider's exception as a network
    error.  The failure of the retrieval appears nowhere in it. *)
Theorem retrieval_failure_is_swallowed rt net stored payload
    (Hfails : retrievalFails rt net (recentCaptions payload)) :
  let search := searchRequest rt (recentCaptions payload) in
  let withRag := handleGenerateResponse rt net stored payload initial in
  let withoutRag :=
    handleGenerateResponse rt net (("ragEnabled", Bool false) :: stored) payload initial in
  let config := propertyOf PROVIDERS_CONFIG (toString rt (providerOf stored)) in
  let call :=
    dispatch rt net (providerOf stored) (apiKeyOf rt stored) (modelOf stored config)
      (promptPreamble ++ questionBlock (recentCaptions payload)) initial in
  (forall w,
     getRagContext rt net (recentCaptions payload) w
     = (Normal EmptyString, {| fetched := fetched w ++ [search]; sent := sent w |}))
  /\ fst withRag = fst withoutRag
  /\ sent (snd withRag) = sent (snd withoutRag)
  /\ (fetched (snd withRag) = fetched (snd withoutRag)
      \/ fetched (snd withRag) = search :: fetched (snd withoutRag))
  /\ (nullish config = false ->
      truthy (propertyOf config "requiresKey") && negb (truthy (apiKeyOf rt stored)) = false ->
      ragEnabledOf stored = true ->
      withRag
      = (Normal tt,
         {| fetched := search :: fetched (snd call);
            sent := [match fst call with
                     | Normal response => response
                     | Throw e => networkError e
                     end] |})).
Proof.
  intros search withRag withoutRag config call.
  subst search withRag withoutRag config call.
  split; [intros w; by apply getRagContext_failure|].
  set (stored' := ("ragEnabled", Bool false) :: stored).
  assert (Hprov : providerOf stored' = providerOf stored) by reflexivity.
  assert (Hkey : apiKeyOf rt stored' = apiKeyOf rt stored) by reflexivity.
  assert (Hmodel : forall config, modelOf stored' config = modelOf stored config)
    by reflexivity.
  assert (Hrag : ragEnabledOf stored' = false) by reflexivity.
  destruct (convertible (providerOf stored)) eqn:Hconvertible.
  - destruct (config_cases (toString rt (providerOf stored))) as [Hu|Hconfig].
    + rewrite !handler_unconfigured by (try rewrite Hprov; done).
      rewrite Hu. repeat split; auto. done.
    + rewrite (handler_configured rt net stored) by done.
      rewrite (handler_configured rt net stored') by (rewrite Hprov; done).
      rewrite Hprov, Hkey, Hmodel, Hrag.
      destruct (truthy _ && negb _) eqn:Hcheck; [repeat split; auto; done|].
      destruct (ragEnabledOf stored); [|repeat split; auto; done].
      unfold bind. rewrite getRagContext_failure by done.
      unfold ret. rewrite !respond_run. simpl. repeat split; auto.
  - rewrite !handler_unconvertible by (try rewrite Hprov; done).
    repeat split; auto. intros Hconfig.
    apply configured_convertible, ToString_result in Hconfig as [Hconfig _].
    congruence.
Qed.

Lemma retrieval_failure_is_swallowed_witness :
  getRagContext exampleRuntime (retrievalDown "A GDG is a group of generations.")
    "What is a GDG?" initial
  = (Normal EmptyString,
     {| fetched := [searchRequest exampleRuntime "What is a GDG?"]; sent := [] |})
  /\ sent (snd (handleGenerateResponse exampleRuntime
                  (retrievalDown "A GDG is a group of generations.") []
                  {| recentCaptions := "What is a GDG?" |} initial))
     = [textResult (Str "A GDG is a group of generations.")].
Proof.
  destruct (retrieval_failure_is_swallowed exampleRuntime
              (retrievalDown "A GDG is a group of generations.") []
              {| recentCaptions := "What is a GDG?" |} I)
    as (Hcontext & _ & _ & _ & Hrun).
  split; [exact (Hcontext initial)|].
  rewrite (Hrun eq_refl eq_refl eq_refl). reflexivity.
Defined.

End WorkerFacts.

(* ===================================================================== *)
(** ** Facts about the callers of the caption grabber                     *)
(* ===================================================================== *)

Module CaptureFacts.

Import Grabber Spec Trace Capture JsStringFacts RegexFacts GrabberFacts.

(** *** Every event is a run of [processText] calls *)

Lemma ingest_app inputs1 inputs2 g :
  ingest (inputs1 ++ inputs2) g = ingest inputs2 (ingest inputs1 g).
Proof. unfold ingest. apply foldl_app. Qed.

Lemma foldl_processTimed (texts : list TimedText) g :
  foldl (fun g el => processTimed el g) g texts = ingest texts g.
Proof. reflexivity. Qed.

Lemma onAddedNode_ingest node g : onAddedNode node g = ingest (nodeCalls node) g.
Proof.
  destruct node as [els now inner tc | tc |]; simpl; try done.
  by destruct (0 <? length els)%nat.
Qed.

Lemma foldl_calls {A} (step : A -> CaptionGrabber -> CaptionGrabber)
    (calls : A -> list TimedText) (xs : list A) g :
  (forall x g, step x g = ingest (calls x) g) ->
  foldl (fun g x => step x g) g xs = ingest (concat (map calls xs)) g.
Proof.
  intros Hstep. revert g. induction xs as [|x xs IH]; intros g; [done|].
  simpl. rewrite ingest_app, <- Hstep. apply IH.
Qed.

Lemma onMutation_ingest mutation g :
  onMutation mutation g = ingest (mutationCalls mutation) g.
Proof.
  unfold onMutation, mutationCalls.
  destruct (0 <? length (addedNodes mutation))%nat.
  - apply foldl_calls, onAddedNode_ingest.
  - by destruct (type mutation).
Qed.

Lemma extractElement_ingest el g : extractElement el g = ingest (elementCalls el) g.
Proof.
  unfold extractElement, elementCalls.
  by destruct (negb (falsy (trim (snd el))) && (2 <? length (trim (snd el)))%nat).
Qed.

Lemma onEvent_ingest event g : onEvent event g = ingest (eventCalls event) g.
Proof.
  destruct event as [mutations | captionTexts]; simpl.
  - apply foldl_calls, onMutation_ingest.
  - apply foldl_calls, extractElement_ingest.
Qed.

Lemma capture_ingest events g :
  capture events g = ingest (concat (map eventCalls events)) g.
Proof. apply foldl_calls, onEvent_ingest. Qed.

(** *** Stored texts are clean *)

Lemma trim_accepted_clean raw : accepted raw = true -> clean (trim raw).
Proof.
  unfold accepted, clean. intros H.
  apply andb_true_iff in H as [H Hui]. apply andb_true_iff in H as [_ Hlen].
  apply negb_true_iff in Hui, Hlen. apply Nat.ltb_ge in Hlen.
  by rewrite trim_idem.
Qed.

Lemma Forall_removelast {A} (P : A -> Prop) (l : list A) :
  Forall P l -> Forall P (removelast l).
Proof.
  destruct l as [|x l] using rev_ind; [done|].
  rewrite removelast_last, Forall_app. tauto.
Qed.

Lemma Forall_evict (P : CaptionEntry -> Prop) (b : list CaptionEntry) :
  Forall P b -> Forall P (evict b).
Proof.
  unfold evict. destruct (25 <? length b)%nat; [apply Forall_drop | done].
Qed.

(** Whatever a predicate on entries, if the buffer satisfies it and the
    entry a fragment would make satisfies it, the buffer after
    [processText] does. *)
Lemma processText_Forall (P : CaptionEntry -> Prop) now raw g :
  Forall P (buffer g) ->
  (accepted raw = true -> P (entryOf (now, raw))) ->
  Forall P (buffer (processText now raw g)).
Proof.
  intros Hb Hnew. destruct (accepted raw) eqn:Hacc.
  - specialize (Hnew eq_refl). rewrite processText_accepted by done.
    assert (Happ : Forall P (buffer (appendEntry now (trim raw) g))).
    { rewrite appendEntry_buffer. apply Forall_evict, Forall_app. split; [done|].
      by constructor. }
    destruct (last (buffer g)) as [l|]; [|done].
    destruct (startsWith (trim raw) (text l) || includes (trim raw) (text l)).
    + simpl. apply Forall_app. split; [by apply Forall_removelast | by constructor].
    + destruct (includes (text l) (trim raw)); [done|].
      by destruct (strictEq (text l) (trim raw)).
  - by rewrite processText_rejected.
Qed.

Lemma ingest_Forall (P : CaptionEntry -> Prop) inputs g :
  Forall P (buffer g) ->
  (forall input, input ∈ inputs -> accepted (snd input) = true -> P (entryOf input)) ->
  Forall P (buffer (ingest inputs g)).
Proof.
  revert g. induction inputs as [|[now raw] inputs IH]; intros g Hb Hnew; [done|].
  rewrite ingest_cons. apply IH.
  - apply processText_Forall; [done|]. intros Hacc. apply (Hnew (now, raw)); [by left | done].
  - intros input Hin. apply Hnew. by right.
Qed.

Lemma ingest_clean inputs g :
  Forall (fun e => clean (text e)) (buffer g) ->
  Forall (fun e => clean (text e)) (buffer (ingest inputs g)).
Proof.
  intros Hb. apply ingest_Forall; [done|].
  intros input _ Hacc. by apply trim_accepted_clean.
Qed.

Lemma processText_merge_listening now raw g :
  isListening (processText now raw g) = isListening g.
Proof.
  destruct (accepted raw) eqn:Hacc; [|by rewrite processText_rejected].
  rewrite processText_accepted by done.
  destruct (last (buffer g)) as [l|]; [|done].
  destruct (startsWith (trim raw) (text l) || includes (trim raw) (text l)); [done|].
  destruct (includes (text l) (trim raw)); [done|].
  by destruct (strictEq (text l) (trim raw)).
Qed.

Lemma ingest_listening inputs g : isListening (ingest inputs g) = isListening g.
Proof.
  revert g. induction inputs as [|[now raw] inputs IH]; intros g; [done|].
  rewrite ingest_cons, IH. apply processText_merge_listening.
Qed.

(** X1.  After any sequence of observer callbacks and poll ticks on a
    grabber that starts empty, the buffer holds at most 25 entries and no
    entry's text contains (in particular: equals) the text of the entry
    after it. *)
Theorem capture_keeps_buffer_invariants (events : list CaptureEvent) (listening : bool) :
  let g := capture events (emptyGrabber listening) in
  (length (buffer g) <= 25)%nat
  /\ noContainment (buffer g)
  /\ adjacent (fun p q => text p <> text q) (buffer g)
  /\ isListening g = listening.
Proof.
  simpl. rewrite capture_ingest.
  set (calls := concat (map eventCalls events)).
  assert (Hno : noContainment (buffer (ingest calls (emptyGrabber listening))))
    by (apply ingest_noContainment; by simpl).
  split; [apply ingest_length; simpl; lia|]. split; [done|]. split.
  - revert Hno. unfold noContainment.
    induction (buffer (ingest calls (emptyGrabber listening))) as [|p [|q b] IH]; try done.
    intros [Hpq Hrest]. split; [by apply not_includes_neq | by apply IH].
  - by rewrite ingest_listening.
Qed.

Lemma capture_stores_clean g :
  (exists events listening, g = capture events (emptyGrabber listening)) ->
  Forall (fun e => clean (text e)) (buffer g).
Proof.
  intros (events & listening & ->). rewrite capture_ingest. apply ingest_clean. by simpl.
Qed.

(** X2.  Every text in the buffer of a grabber fed by observer
    callbacks and poll ticks is stored trimmed, has at least two code
    units and is not UI noise: rejected fragments never get in, neither by
    an append nor by the overwrite of the last entry. *)
Theorem capture_stores_clean_texts (events : list CaptureEvent) (listening : bool) :
  Forall (fun e => trim (text e) = text e
                   /\ (2 <= length (text e))%nat
                   /\ isNoise (text e) = false)
         (buffer (capture events (emptyGrabber listening))).
Proof.
  rewrite capture_ingest.
  eapply Forall_impl; [apply ingest_clean; by simpl|].
  intros e (Htrim & Hlen & Hui). split; [done|]. split; [done|].
  unfold isUIText in Hui. by rewrite uiPatterns_isNoise, Htrim in Hui.
Qed.

(** *** The poll *)

Lemma trim_nil : trim [] = [].
Proof. reflexivity. Qed.

Lemma processText_trim now raw g :
  trim raw <> [] -> processText now (trim raw) g = processText now raw g.
Proof.
  intros Hne. unfold processText. rewrite trim_idem.
  destruct raw as [|c raw]; [done|]. by destruct (trim (c :: raw)).
Qed.

(** X3.  The poll forwards an element's text to [processText] only when
    its trimmed length exceeds 2, and then with the same effect as the
    observer would have on the raw text.  So a two-unit utterance that
    [processText] accepts (it rejects only lengths below 2) is captured
    when it arrives through the observer and never through the poll. *)
Theorem poll_drops_two_unit_texts now rawText g
    (Haccepted : accepted rawText = true)
    (Hshort : length (trim rawText) = 2%nat) :
  periodicExtraction [(now, rawText)] g = g
  /\ buffer (processText now rawText (emptyGrabber true)) = [entryOf (now, rawText)]
  /\ (forall el g',
        extractElement el g'
        = if (2 <? length (trim (snd el)))%nat then processText (fst el) (snd el) g' else g').
Proof.
  assert (Hel : forall el g',
            extractElement el g'
            = if (2 <? length (trim (snd el)))%nat then processText (fst el) (snd el) g' else g').
  { intros [t tc] g'. unfold extractElement. simpl.
    destruct (2 <? length (trim tc))%nat eqn:Hlen; [|by rewrite andb_false_r].
    apply Nat.ltb_lt in Hlen.
    assert (Hne : trim tc <> []) by (intros E; rewrite E in Hlen; simpl in Hlen; lia).
    rewrite andb_true_r. destruct (trim tc) eqn:E; [done|]. simpl.
    rewrite <- E. apply processText_trim. by rewrite E. }
  split; [|split; [|done]].
  - unfold periodicExtraction. simpl. rewrite Hel. simpl. by rewrite Hshort.
  - rewrite processText_accepted by done. simpl. reflexivity.
Qed.

Lemma poll_drops_two_unit_texts_witness :
  periodicExtraction [(7, lit " No ")] (emptyGrabber true) = emptyGrabber true
  /\ buffer (processText 7 (lit " No ") (emptyGrabber true))
     = [{| text := lit "No"; time := 7 |}].
Proof.
  pose proof (poll_drops_two_unit_texts 7 (lit " No ") (emptyGrabber true) eq_refl eq_refl)
    as [H1 [H2 _]].
  exact (conj H1 H2).
Defined.

(** *** Times *)

Lemma ordered_later (e : CaptionEntry) (b : list CaptionEntry) :
  ordered (e :: b) -> Forall (fun x => time e <= time x) b.
Proof.
  revert e. induction b as [|x b IH]; intros e H; [done|].
  destruct H as [Hex Hrest]. constructor; [done|].
  eapply Forall_impl; [by apply IH|]. simpl. intros y Hy. lia.
Qed.

(** In a buffer with ordered times, the entries younger than any age
    form a suffix. *)
Lemma window_suffix (now maxAge : Z) (b : list CaptionEntry) :
  ordered b -> exists k, filter (fun e => now - time e < maxAge) b = drop k b.
Proof.
  induction b as [|e b IH]; intros Hord; [by exists 0%nat|].
  destruct (decide (now - time e < maxAge)) as [Hin|Hout].
  - exists 0%nat. rewrite drop_0. rewrite filter_cons_True by done. f_equal.
    apply ordered_later in Hord. clear IH.
    induction Hord as [|x b Hx _ IHb]; [done|].
    rewrite filter_cons_True by lia. by f_equal.
  - rewrite filter_cons_False by done.
    destruct IH as [k Hk]; [by destruct b as [|x b]; [|destruct Hord]|].
    exists (S k). by rewrite Hk.
Qed.

Lemma processText_ordered now raw g :
  ordered (buffer g) ->
  Forall (fun e => time e <= now) (buffer g) ->
  ordered (buffer (processText now raw g))
  /\ Forall (fun e => time e <= now) (buffer (processText now raw g)).
Proof.
  intros Hord Hle. split; [|apply processText_Forall; [done | simpl; lia]].
  destruct (accepted raw) eqn:Hacc; [|by rewrite processText_rejected].
  rewrite processText_accepted by done.
  assert (Happ : ordered (buffer (appendEntry now (trim raw) g))).
  { rewrite appendEntry_buffer. unfold evict.
    assert (ordered (buffer g ++ [{| text := trim raw; time := now |}])).
    { apply adjacent_snoc. split; [done|]. intros l Hl. simpl.
      apply last_Some_elem_of in Hl. by apply (proj1 (Forall_forall _ _) Hle). }
    destruct (25 <? _)%nat; [by apply adjacent_drop1 | done]. }
  destruct (last (buffer g)) as [l|] eqn:Hlast; [|done].
  destruct (startsWith (trim raw) (text l) || includes (trim raw) (text l)).
  - simpl. rewrite (last_removelast _ _ Hlast) in Hord, Hle.
    apply adjacent_snoc in Hord as [Hinit _]. apply Forall_app in Hle as [Hle _].
    apply adjacent_snoc. split; [done|]. intros p Hp. simpl.
    apply last_Some_elem_of in Hp. by apply (proj1 (Forall_forall _ _) Hle).
  - destruct (includes (text l) (trim raw)); [done|].
    by destruct (strictEq (text l) (trim raw)).
Qed.

Lemma ingest_ordered inputs g :
  adjacent Z.le (map fst inputs) ->
  ordered (buffer g) ->
  (forall input, head inputs = Some input -> Forall (fun e => time e <= fst input) (buffer g)) ->
  ordered (buffer (ingest inputs g)).
Proof.
  revert g. induction inputs as [|[now raw] inputs IH]; intros g Hclock Hord Hle; [done|].
  rewrite ingest_cons. simpl fst. simpl snd.
  destruct (processText_ordered now raw g Hord (Hle _ eq_refl)) as [Hord' Hle'].
  apply IH; [by destruct inputs as [|i inputs]; [|destruct Hclock] | done |].
  intros [now2 raw2] Hhead. destruct inputs as [|i inputs]; [done|].
  simpl in Hhead. injection Hhead as ->. destruct Hclock as [Hnow _]. simpl in Hnow.
  eapply Forall_impl; [exact Hle'|]. simpl. intros e He. lia.
Qed.

(** X4.  When the clock readings of successive [processText] calls never
    go back, entry times never decrease along the buffer, and the text
    [getRecentCaptions] returns at any moment is that of a suffix of the
    buffer: the window never skips an entry between two it includes. *)
Theorem recent_window_is_suffix (inputs : list (Z * jsstring)) (now : Z)
    (Hclock : adjacent Z.le (map fst inputs)) :
  let g := ingest inputs constructor in
  ordered (buffer g)
  /\ exists k,
       fst (getRecentCaptions now g)
       = join (lit (String "010" EmptyString)) (map text (drop k (buffer g))).
Proof.
  simpl.
  assert (Hord : ordered (buffer (ingest inputs constructor))).
  { apply ingest_ordered; [done | by simpl | intros; by simpl]. }
  split; [done|].
  destruct (window_suffix now 90000 _ Hord) as [k Hk]. exists k.
  unfold getRecentCaptions. simpl. by rewrite Hk.
Qed.

Lemma recent_window_is_suffix_witness :
  exists k,
    fst (getRecentCaptions 95000
           (ingest [(1000, lit "Tell me about JCL"); (9000, lit "What is a GDG")] constructor))
    = join (lit (String "010" EmptyString))
        (map text (drop k (buffer (ingest [(1000, lit "Tell me about JCL");
                                           (9000, lit "What is a GDG")] constructor)))).
Proof.
  refine (proj2 (recent_window_is_suffix
                   [(1000, lit "Tell me about JCL"); (9000, lit "What is a GDG")] 95000 _)).
  simpl. split; [lia | exact I].
Defined.

(** *** A caption line that grows *)

Lemma ingest_growing rest g b l :
  buffer g = b ++ [l] ->
  forallb accepted (map snd rest) = true ->
  growing (text l) (map (fun input => trim (snd input)) rest) = true ->
  buffer (ingest rest g) = b ++ [default l (last (map entryOf rest))].
Proof.
  revert g l. induction rest as [|[now raw] rest IH]; intros g l Hb Hacc Hgrow; [done|].
  simpl in Hacc, Hgrow.
  apply andb_true_iff in Hacc as [Hacc Haccs].
  apply andb_true_iff in Hgrow as [Hinc Hgrow].
  rewrite ingest_cons. simpl fst. simpl snd.
  assert (Hstep : buffer (processText now raw g) = b ++ [entryOf (now, raw)]).
  { rewrite processText_accepted by done.
    by rewrite Hb, last_snoc, removelast_last, Hinc, orb_true_r. }
  rewrite (IH _ (entryOf (now, raw)) Hstep Haccs Hgrow).
  simpl map. destruct (map entryOf rest) as [|e es] eqn:E; [done|].
  change (last (entryOf (now, raw) :: e :: es)) with (last (e :: es)).
  destruct (last (e :: es)) eqn:El; [done|]. by apply last_None in El.
Qed.

(** X5.  A caption line that grows, each accepted fragment containing
    the one before it, ends as a single entry: a new grabber fed such a
    run holds exactly one entry, with the text of the last fragment and
    the time of its arrival, however long the run. *)
Theorem growing_line_is_one_entry (first : Z * jsstring) (rest : list (Z * jsstring))
    (Haccepted : forallb accepted (map snd (first :: rest)) = true)
    (Hgrowing : growing (trim (snd first)) (map (fun input => trim (snd input)) rest) = true) :
  buffer (ingest (first :: rest) constructor) = [entryOf (default first (last rest))].
Proof.
  simpl in Haccepted. apply andb_true_iff in Haccepted as [Hacc Haccs].
  rewrite ingest_cons.
  assert (Hfirst : buffer (processText (fst first) (snd first) constructor)
                   = [] ++ [entryOf first]).
  { rewrite processText_accepted by done. by destruct first. }
  rewrite (ingest_growing rest _ [] (entryOf first) Hfirst Haccs Hgrowing).
  simpl. f_equal. rewrite fmap_last. by destruct (last rest).
Qed.

Lemma growing_line_is_one_entry_witness :
  buffer (ingest [(1, lit "Tell"); (2, lit "Tell me"); (3, lit "Tell me about");
                  (4, lit "So, Tell me about yourself")] constructor)
  = [{| text := lit "So, Tell me about yourself"; time := 4 |}].
Proof.
  exact (growing_line_is_one_entry (1, lit "Tell")
           [(2, lit "Tell me"); (3, lit "Tell me about");
            (4, lit "So, Tell me about yourself")] eq_refl eq_refl).
Defined.

(** X7.  From any buffer of at most 25 entries, a run of accepted
    fragments of any length, each unrelated to the text before it, is
    appended in order and what remains is the newest 25 of the old
    entries followed by the new ones. *)
Theorem separated_run_keeps_newest (inputs : list (Z * jsstring)) (g : CaptionGrabber)
    (Hbound : (length (buffer g) <= 25)%nat)
    (Haccepted : forallb accepted (map snd inputs) = true)
    (Hseparated : separated (text <$> last (buffer g))
                    (map (fun input => trim (snd input)) inputs) = true) :
  buffer (ingest inputs g)
  = drop (length (buffer g) + length inputs - 25) (buffer g ++ map entryOf inputs)
  /\ length (buffer (ingest inputs g)) = Nat.min 25 (length (buffer g) + length inputs).
Proof.
  assert (H := ingest_separated inputs g Hbound Haccepted Hseparated).
  split; [done|]. rewrite H, length_drop, length_app, length_map. lia.
Qed.

Lemma separated_run_keeps_newest_witness :
  buffer (ingest [(5, lit "What is JCL"); (6, lit "Tell me more")]
            {| buffer := [{| text := lit "Hello there"; time := 1 |}]; isListening := true |})
  = [{| text := lit "Hello there"; time := 1 |};
     {| text := lit "What is JCL"; time := 5 |};
     {| text := lit "Tell me more"; time := 6 |}].
Proof.
  refine (proj1 (separated_run_keeps_newest
                   [(5, lit "What is JCL"); (6, lit "Tell me more")]
                   {| buffer := [{| text := lit "Hello there"; time := 1 |}];
                      isListening := true |}
                   _ eq_refl eq_refl)).
  simpl. lia.
Defined.

(** *** The trigger button *)

Lemma trimStart_nonempty (s : jsstring) (c : N) :
  isWhiteSpace c = false -> trimStart (s ++ [c]) <> [].
Proof.
  intros Hc. induction s as [|x s IH]; simpl.
  - by rewrite Hc.
  - by destruct (isWhiteSpace x).
Qed.

Lemma trim_ended (s : jsstring) : trim s = [] \/ ended (trim s).
Proof.
  unfold trim. pose proof (trimStart_head s) as Hh.
  destruct (trimStart s) as [|c u]; [by left|]. right.
  destruct (trimEnd_head c u Hh) as [r Hr]. split; [by exists c, r|].
  unfold trimEnd in *. pose proof (trimStart_head (rev (c :: u))) as Hl.
  destruct (trimStart (rev (c :: u))) as [|d v]; [done|].
  exists (rev v), d. by simpl.
Qed.

Lemma ended_trim (t : jsstring) : ended t -> trim t = t.
Proof.
  intros [(c & r & -> & Hc) (i & d & Hi & Hd)]. unfold trim.
  rewrite trimStart_fixed by done. unfold trimEnd. rewrite Hi, rev_unit.
  by rewrite trimStart_fixed, <- rev_unit, rev_involutive.
Qed.

Lemma clean_ended (t : jsstring) : clean t -> ended t.
Proof.
  intros (Htrim & Hlen & _). destruct (trim_ended t) as [Hnil | H].
  - rewrite Htrim in Hnil. rewrite Hnil in Hlen. simpl in Hlen. lia.
  - by rewrite Htrim in H.
Qed.

Lemma join_ended (sep t : jsstring) (ts : list jsstring) :
  ended t -> Forall ended ts -> ended (join sep (t :: ts)).
Proof.
  revert t. induction ts as [|t2 ts IH]; intros t Ht Hts; [done|].
  apply Forall_cons in Hts as [Ht2 Hts].
  destruct (IH t2 Ht2 Hts) as [_ (i & d & Hi & Hd)].
  destruct Ht as [(c & r & -> & Hc) _].
  change (join sep ((c :: r) :: t2 :: ts)) with ((c :: r) ++ sep ++ join sep (t2 :: ts)).
  split.
  - by exists c, (r ++ sep ++ join sep (t2 :: ts)).
  - exists ((c :: r) ++ sep ++ i), d. by rewrite Hi, <- !app_assoc.
Qed.

Lemma join_length (sep t : jsstring) (ts : list jsstring) :
  (length t <= length (join sep (t :: ts)))%nat.
Proof.
  destruct ts as [|t2 ts]; [done|].
  change (join sep (t :: t2 :: ts)) with (t ++ sep ++ join sep (t2 :: ts)).
  rewrite length_app. lia.
Qed.

(** X6.  On a grabber fed by observer callbacks and poll ticks, the
    trigger button sends GENERATE_RESPONSE exactly when some entry is
    younger than 90000 ms, with the window text as it is (trimming would
    not change it, and it has at least two code units); otherwise, and
    when there is no grabber, it shows the warning and sends nothing. *)
Theorem trigger_sends_iff_window_nonempty
    (events : list CaptureEvent) (listening : bool) (now : Z) :
  let g := capture events (emptyGrabber listening) in
  let lines := filter (fun e => now - time e < 90000) (buffer g) in
  onTriggerClick now (Some g)
  = match lines with
    | [] => AddMessage "⚠️ Can't read captions yet. Wait for someone to speak." "error"
    | _ :: _ =>
        SendMessage "GENERATE_RESPONSE" (join (lit (String "010" EmptyString)) (map text lines))
    end
  /\ ((2 <= length (trim (fst (getRecentCaptions now g))))%nat \/ lines = [])
  /\ onTriggerClick now None
     = AddMessage "⚠️ Can't read captions yet. Wait for someone to speak." "error".
Proof.
  simpl. split; [|split; [|done]].
  - unfold onTriggerClick, getRecentCaptions. simpl fst.
    pose proof (capture_stores_clean (capture events (emptyGrabber listening))) as Hall.
    destruct (filter _ (buffer (capture events (emptyGrabber listening)))) as [|e es] eqn:E;
      [done|].
    assert (Hclean : Forall (fun e => clean (text e)) (e :: es)).
    { rewrite <- E. apply Forall_forall. intros x Hx.
      apply list_elem_of_filter in Hx as [_ Hx].
      apply (proj1 (Forall_forall _ _) (Hall ltac:(by exists events, listening)) x Hx). }
    apply Forall_cons in Hclean as [He Hes].
    set (captions := join (lit (String "010" EmptyString)) (map text (e :: es))).
    assert (Hended : ended captions).
    { apply join_ended; [by apply clean_ended|].
      apply Forall_fmap. eapply Forall_impl; [exact Hes|]. intros x. apply clean_ended. }
    assert (Hlen : (2 <= length captions)%nat).
    { pose proof (join_length (lit (String "010" EmptyString)) (text e) (map text es)).
      destruct He as (_ & Hl & _). unfold captions. simpl map. lia. }
    rewrite (ended_trim _ Hended).
    destruct captions as [|c cs] eqn:Ec; [simpl in Hlen; lia|].
    simpl falsy. replace (length (c :: cs) <? 2)%nat with false; [done|].
    symmetry. apply Nat.ltb_ge. lia.
  - unfold getRecentCaptions. simpl fst.
    pose proof (capture_stores_clean (capture events (emptyGrabber listening))) as Hall.
    destruct (filter _ (buffer (capture events (emptyGrabber listening)))) as [|e es] eqn:E;
      [by right|]. left.
    assert (Hclean : Forall (fun e => clean (text e)) (e :: es)).
    { rewrite <- E. apply Forall_forall. intros x Hx.
      apply list_elem_of_filter in Hx as [_ Hx].
      apply (proj1 (Forall_forall _ _) (Hall ltac:(by exists events, listening)) x Hx). }
    apply Forall_cons in Hclean as [He Hes].
    rewrite ended_trim.
    + pose proof (join_length (lit (String "010" EmptyString)) (text e) (map text es)).
      destruct He as (_ & Hl & _). simpl map. lia.
    + apply join_ended; [by apply clean_ended|].
      apply Forall_fmap. eapply Forall_impl; [exact Hes|]. intros x. apply clean_ended.
Qed.

End CaptureFacts.

(* ===================================================================== *)
(** ** Facts about the provider adapters and the other handlers           *)
(* ===================================================================== *)

Module ServiceFacts.

Import Js Worker Spec Scenario Capture Service WorkerFacts.
#[local] Open Scope string_scope.

(** Case analysis on every completion and condition a computation of the
    worker goes through. *)
Ltac unfold_run := unfold bind, lift, ret, fetch, try_catch, sendResponse in *.

Ltac split_run :=
  repeat match goal with
         | |- context [match ?c with Normal _ => _ | Throw _ => _ end] => destruct c eqn:?
         | |- context [if ?b then _ else _] => destruct b eqn:?
         | |- context [let (_, _) := ?p in _] => destruct p eqn:?
         | |- context [match ?p with (_, _) => _ end] => destruct p eqn:?
         end.

Lemma truthy_prefixed (c : Ascii.ascii) (p rest : string) :
  truthy (Str (String c p ++ rest)) = true.
Proof. reflexivity. Qed.

Ltac result_shape :=
  first [ left; eexists; split; [reflexivity | first [apply truthy_prefixed | reflexivity]]
        | right; by eexists ].

Lemma callChat_result rt net endpoint c p apiKey model systemPrompt w v w' :
  callChat rt net endpoint (String c p) apiKey model systemPrompt w = (Normal v, w') ->
  adapterResult v.
Proof.
  unfold callChat. unfold_run. split_run; intros [= <- <-]; result_shape.
Qed.

Lemma callPollinations_result rt net model systemPrompt w v w' :
  callPollinations rt net systemPrompt model w = (Normal v, w') -> adapterResult v.
Proof.
  unfold callPollinations. unfold_run. split_run; intros [= <- <-]; result_shape.
Qed.

Lemma callGemini_result rt net apiKey model systemPrompt w v w' :
  callGemini rt net apiKey model systemPrompt w = (Normal v, w') -> adapterResult v.
Proof.
  unfold callGemini. unfold_run. split_run; intros [= <- <-]; result_shape.
Qed.

Lemma callOpenRouter_result rt net apiKey model systemPrompt w v w' :
  callOpenRouter rt net apiKey model systemPrompt w = (Normal v, w') -> adapterResult v.
Proof.
  unfold callOpenRouter. unfold_run. split_run; intros [= <- <-]; result_shape.
Qed.

Lemma dispatch_result rt net provider apiKey model systemPrompt w v w' :
  dispatch rt net provider apiKey model systemPrompt w = (Normal v, w') ->
  adapterResult v.
Proof.
  unfold dispatch, callOpenAI, callGroq.
  destruct (strictEqStr provider "pollinations"); [apply callPollinations_result|].
  destruct (strictEqStr provider "gemini"); [apply callGemini_result|].
  destruct (strictEqStr provider "openrouter"); [apply callOpenRouter_result|].
  destruct (strictEqStr provider "groq"); apply callChat_result.
Qed.

Ltac count_requests :=
  first [ exists []; rewrite app_nil_r;
          split; [reflexivity | split; [simpl; lia | split; [constructor | by intros]]]
        | eexists [_];
          split; [reflexivity
                 | split; [simpl; lia
                          | split; [constructor; [first [reflexivity | assumption] | constructor]
                                   | by intros]]] ].

Lemma callPollinations_oneRequest rt net model systemPrompt :
  oneRequest (callPollinations rt net systemPrompt model).
Proof.
  intros [f s]. unfold callPollinations. unfold_run. simpl fetched. simpl sent.
  split_run; simpl; count_requests.
Qed.

Lemma callGemini_oneRequest rt net apiKey model systemPrompt :
  oneRequest (callGemini rt net apiKey model systemPrompt).
Proof.
  intros [f s]. unfold callGemini. unfold_run. simpl fetched. simpl sent.
  split_run; simpl; count_requests.
Qed.

Lemma callOpenRouter_oneRequest rt net apiKey model systemPrompt :
  oneRequest (callOpenRouter rt net apiKey model systemPrompt).
Proof.
  intros [f s]. unfold callOpenRouter. unfold_run. simpl fetched. simpl sent.
  split_run; simpl; count_requests.
Qed.

Lemma callChat_oneRequest rt net endpoint prefix apiKey model systemPrompt :
  String.prefix "https://" endpoint = true ->
  oneRequest (callChat rt net endpoint prefix apiKey model systemPrompt).
Proof.
  intros Hendpoint [f s]. unfold callChat. unfold_run. simpl fetched. simpl sent.
  split_run; simpl; count_requests.
Qed.

Lemma dispatch_oneRequest rt net provider apiKey model systemPrompt :
  oneRequest (dispatch rt net provider apiKey model systemPrompt).
Proof.
  unfold dispatch, callOpenAI, callGroq.
  destruct (strictEqStr provider "pollinations"); [apply callPollinations_oneRequest|].
  destruct (strictEqStr provider "gemini"); [apply callGemini_oneRequest|].
  destruct (strictEqStr provider "openrouter"); [apply callOpenRouter_oneRequest|].
  destruct (strictEqStr provider "groq"); by apply callChat_oneRequest.
Qed.

Lemma adapters_shape rt net provider apiKey model systemPrompt w :
  match fst (dispatch rt net provider apiKey model systemPrompt w) with
  | Normal v => adapterResult v
  | Throw _ => True
  end.
Proof.
  destruct (dispatch rt net provider apiKey model systemPrompt w) as [[v|e] w'] eqn:E; [|done].
  exact (dispatch_result _ _ _ _ _ _ _ _ _ E).
Qed.

(** X8.  Whatever the provider value, the key, the model and the reply
    of the network, a provider call that returns gives one of two shapes:
    an object whose [error] is a text that is not empty, or an object with
    a [text].  Nothing else is ever returned; every other outcome is a
    thrown exception. *)
Theorem adapters_return_text_or_error rt net provider apiKey model systemPrompt w :
  match fst (dispatch rt net provider apiKey model systemPrompt w) with
  | Normal v =>
      (exists msg, v = errorResult msg /\ truthy (Str msg) = true)
      \/ (exists text, v = textResult text)
  | Throw _ => True
  end.
Proof.
  destruct (dispatch rt net provider apiKey model systemPrompt w) as [[v|e] w'] eqn:E; [|done].
  exact (dispatch_result _ _ _ _ _ _ _ _ _ E).
Qed.

(** X9.  A provider call never retries and never answers the caller
    itself: it sends no response, makes at most one request, always to an
    [https] address, and has made exactly one whenever it returns a
    result. *)
Theorem adapters_make_one_request rt net provider apiKey model systemPrompt w :
  let call := dispatch rt net provider apiKey model systemPrompt w in
  exists requests,
    snd call = {| fetched := fetched w ++ requests; sent := sent w |}
    /\ (length requests <= 1)%nat
    /\ Forall (fun request => String.prefix "https://" (url request) = true) requests
    /\ match fst call with
       | Normal _ => length requests = 1%nat
       | Throw _ => True
       end.
Proof.
  simpl.
  destruct (dispatch_oneRequest rt net provider apiKey model systemPrompt w)
    as (requests & Hw & Hlen & Hurl & Hone).
  exists requests. split; [done|]. split; [done|]. split; [done|].
  destruct (fst (dispatch rt net provider apiKey model systemPrompt w)) as [v|e] eqn:E; [|done].
  by apply (Hone v).
Qed.

(** *** What the generation handler sends *)

Lemma outcomeOf_result ragContext c :
  match c with Normal v => adapterResult v | Throw _ => True end ->
  GenerationResult (outcomeOf ragContext c).
Proof.
  destruct c as [v|e]; simpl.
  - intros [(msg & -> & Hmsg) | (text & ->)].
    + destruct (negb (String.eqb ragContext EmptyString)); by constructor.
    + destruct (negb (String.eqb ragContext EmptyString)); [|by constructor].
      simpl. destruct (truthy text) eqn:Ht; by constructor.
  - intros _. by constructor.
Qed.

Lemma contextFor_run rt net stored payload :
  exists ragContext searches,
    (if ragEnabledOf stored then getRagContext rt net (recentCaptions payload)
     else ret EmptyString) initial
    = (Normal ragContext, {| fetched := searches; sent := [] |})
    /\ (ragEnabledOf stored = false -> ragContext = EmptyString /\ searches = []).
Proof.
  destruct (ragEnabledOf stored).
  - destruct (getRagContext_total rt net (recentCaptions payload) initial) as [c ->].
    eexists _, _. split; [reflexivity | done].
  - eexists _, _. split; [reflexivity | done].
Qed.

(** X10.  With a provider that [PROVIDERS_CONFIG] knows, the generation
    handler never throws and calls [sendResponse] exactly once, with an
    object that has a non-empty [error] text, or a [text], or a truthy
    [text] marked [usedRag: true]. *)
Theorem configured_provider_sends_one_result rt net stored payload
    (Hconfig : nullish (propertyOf PROVIDERS_CONFIG (toString rt (providerOf stored))) = false) :
  exists result requests,
    handleGenerateResponse rt net stored payload initial
    = (Normal tt, {| fetched := requests; sent := [result] |})
    /\ GenerationResult result.
Proof.
  rewrite handler_configured by done.
  destruct (truthy _ && negb _).
  - eexists _, _. split; [reflexivity|]. by constructor.
  - unfold bind.
    destruct (contextFor_run rt net stored payload) as (ragContext & searches & -> & _).
    rewrite respond_run. simpl. eexists _, _. split; [reflexivity|].
    apply outcomeOf_result. apply adapters_shape.
Qed.

Lemma configured_provider_sends_one_result_witness :
  exists result requests,
    handleGenerateResponse exampleRuntime unreachable [] {| recentCaptions := "What is a GDG?" |}
      initial
    = (Normal tt, {| fetched := requests; sent := [result] |})
    /\ GenerationResult result.
Proof.
  exact (configured_provider_sends_one_result exampleRuntime unreachable []
           {| recentCaptions := "What is a GDG?" |} eq_refl).
Defined.

(** The handler from the key check on, once the context is known. *)
Lemma handler_after_context rt net stored payload ragContext searches :
  nullish (propertyOf PROVIDERS_CONFIG (toString rt (providerOf stored))) = false ->
  truthy (propertyOf (propertyOf PROVIDERS_CONFIG (toString rt (providerOf stored)))
                     "requiresKey")
  && negb (truthy (apiKeyOf rt stored)) = false ->
  (if ragEnabledOf stored then getRagContext rt net (recentCaptions payload)
   else ret EmptyString) initial
  = (Normal ragContext, {| fetched := searches; sent := [] |}) ->
  let call :=
    dispatch rt net (providerOf stored) (apiKeyOf rt stored)
      (modelOf stored (propertyOf PROVIDERS_CONFIG (toString rt (providerOf stored))))
      (buildSystemPrompt ragContext (recentCaptions payload)) initial in
  handleGenerateResponse rt net stored payload initial
  = (Normal tt,
     {| fetched := searches ++ fetched (snd call);
        sent := [outcomeOf ragContext (fst call)] |}).
Proof.
  intros Hconfig Hkey Hctx. simpl.
  rewrite handler_configured by done. rewrite Hkey.
  unfold bind. rewrite Hctx. by rewrite respond_run.
Qed.

Lemma outcomeOf_unmarked c :
  match c with Normal v => adapterResult v | Throw _ => True end ->
  get (outcomeOf EmptyString c) "usedRag" = Normal Undefined.
Proof.
  destruct c as [v|e]; simpl; [|done].
  by intros [(msg & -> & _) | (text & ->)].
Qed.

(** X11.  With [ragEnabled] stored as [false], a configured provider and
    the key check passed, the handler makes no request to the retrieval
    server: its only requests are those of the provider call (at most
    one, to an [https] address), the prompt has no knowledge-base block,
    and the result it sends is not marked [usedRag]. *)
Theorem rag_disabled_skips_retrieval rt net stored payload
    (Hconfig : nullish (propertyOf PROVIDERS_CONFIG (toString rt (providerOf stored))) = false)
    (Hkey : truthy (propertyOf (propertyOf PROVIDERS_CONFIG (toString rt (providerOf stored)))
                               "requiresKey")
            && negb (truthy (apiKeyOf rt stored)) = false)
    (Hrag : storedValue stored "ragEnabled" = Bool false) :
  let call :=
    dispatch rt net (providerOf stored) (apiKeyOf rt stored)
      (modelOf stored (propertyOf PROVIDERS_CONFIG (toString rt (providerOf stored))))
      (promptPreamble ++ questionBlock (recentCaptions payload)) initial in
  exists result,
    handleGenerateResponse rt net stored payload initial
    = (Normal tt, {| fetched := fetched (snd call); sent := [result] |})
    /\ (length (fetched (snd call)) <= 1)%nat
    /\ (searchRequest rt (recentCaptions payload) ∉ fetched (snd call))
    /\ get result "usedRag" = Normal Undefined.
Proof.
  simpl.
  assert (Hoff : ragEnabledOf stored = false) by (unfold ragEnabledOf; by rewrite Hrag).
  assert (Hctx : (if ragEnabledOf stored then getRagContext rt net (recentCaptions payload)
                  else ret EmptyString) initial
                 = (Normal EmptyString, {| fetched := []; sent := [] |}))
    by (by rewrite Hoff).
  rewrite (handler_after_context rt net stored payload _ _ Hconfig Hkey Hctx).
  change (buildSystemPrompt EmptyString (recentCaptions payload))
    with (promptPreamble ++ questionBlock (recentCaptions payload)).
  set (call := dispatch rt net _ _ _ _ initial).
  destruct (dispatch_oneRequest rt net (providerOf stored) (apiKeyOf rt stored)
              (modelOf stored (propertyOf PROVIDERS_CONFIG (toString rt (providerOf stored))))
              (promptPreamble ++ questionBlock (recentCaptions payload)) initial)
    as (requests & Hw & Hlen & Hurl & _).
  fold call in Hw. eexists. split; [reflexivity|].
  rewrite Hw. simpl. split; [done|]. split.
  - intros Hin. apply (proj1 (Forall_forall _ _) Hurl) in Hin. discriminate Hin.
  - apply outcomeOf_unmarked. apply adapters_shape.
Qed.

Lemma rag_disabled_skips_retrieval_witness :
  exists result,
    handleGenerateResponse exampleRuntime unreachable [("ragEnabled", Bool false)]
      {| recentCaptions := "What is a GDG?" |} initial
    = (Normal tt,
       {| fetched :=
            fetched (snd (dispatch exampleRuntime unreachable (Str "pollinations")
                            (Str EmptyString) (Str "openai")
                            (promptPreamble ++ questionBlock "What is a GDG?") initial));
          sent := [result] |}).
Proof.
  destruct (rag_disabled_skips_retrieval exampleRuntime unreachable [("ragEnabled", Bool false)]
              {| recentCaptions := "What is a GDG?" |} eq_refl eq_refl eq_refl)
    as (result & H & _).
  exists result. exact H.
Defined.

(** *** Retrieval that finds nothing relevant *)

Lemma getRagContext_success rt net query response data results snippets w :
  net (searchRequest rt query) = Normal response ->
  ok response = true ->
  json response = Normal data ->
  get data "results" = Normal (Arr results) ->
  Forall2 represents results snippets ->
  getRagContext rt net query w
  = (Normal (String.concat (nl ++ nl)
               (List.map formatSnippet (List.filter relevant snippets))),
     {| fetched := fetched w ++ [searchRequest rt query]; sent := sent w |}).
Proof.
  intros Hreply Hok Hjson Hresults Hshape.
  destruct (filterC_represents rt results snippets Hshape) as [kept [Hkept Hrep]].
  unfold getRagContext, try_catch, bind, fetch, lift, ret. simpl.
  rewrite Hreply, Hok. simpl. rewrite Hjson.
  unfold relevantChunks. rewrite Hresults. simpl. rewrite Hkept. simpl.
  by rewrite (mapC_represents rt kept _ Hrep).
Qed.

Lemma filter_none {A} (p : A -> bool) (l : list A) :
  forallb (fun x => negb (p x)) l = true -> List.filter p l = [].
Proof.
  induction l as [|x l IH]; simpl; [done|].
  intros H. apply andb_true_iff in H as [Hx Hl]. apply negb_true_iff in Hx.
  rewrite Hx. by apply IH.
Qed.

(** X12.  When retrieval succeeds but returns no snippet with similarity
    at least 0.5 (or no snippet at all), the context is empty, and the
    handler completes and sends exactly what it sends with [ragEnabled]
    stored as [false]: no knowledge-base block, no [usedRag] mark.  The
    search request is the one difference in what it does. *)
Theorem irrelevant_snippets_change_nothing rt net stored payload response data results snippets
    (Hreply : net (searchRequest rt (recentCaptions payload)) = Normal response)
    (Hok : ok response = true)
    (Hjson : json response = Normal data)
    (Hresults : get data "results" = Normal (Arr results))
    (Hshape : Forall2 represents results snippets)
    (Hlow : forallb (fun s => negb (relevant s)) snippets = true) :
  let search := searchRequest rt (recentCaptions payload) in
  let withRag := handleGenerateResponse rt net stored payload initial in
  let withoutRag :=
    handleGenerateResponse rt net (("ragEnabled", Bool false) :: stored) payload initial in
  getRagContext rt net (recentCaptions payload) initial
  = (Normal EmptyString, {| fetched := [search]; sent := [] |})
  /\ fst withRag = fst withoutRag
  /\ sent (snd withRag) = sent (snd withoutRag)
  /\ (fetched (snd withRag) = fetched (snd withoutRag)
      \/ fetched (snd withRag) = search :: fetched (snd withoutRag)).
Proof.
  simpl.
  assert (Hctx : forall w,
            getRagContext rt net (recentCaptions payload) w
            = (Normal EmptyString,
               {| fetched := fetched w ++ [searchRequest rt (recentCaptions payload)];
                  sent := sent w |})).
  { intros w.
    rewrite (getRagContext_success rt net _ response data results snippets w) by done.
    by rewrite (filter_none relevant snippets Hlow). }
  split; [apply Hctx|].
  set (stored' := ("ragEnabled", Bool false) :: stored).
  assert (Hprov : providerOf stored' = providerOf stored) by reflexivity.
  assert (Hkey : apiKeyOf rt stored' = apiKeyOf rt stored) by reflexivity.
  assert (Hmodel : forall config, modelOf stored' config = modelOf stored config)
    by reflexivity.
  assert (Hrag : ragEnabledOf stored' = false) by reflexivity.
  destruct (convertible (providerOf stored)) eqn:Hconvertible;
    [|rewrite !handler_unconvertible by (try rewrite Hprov; done); auto].
  destruct (config_cases (toString rt (providerOf stored))) as [Hu|Hconfig].
  - rewrite !handler_unconfigured by (try rewrite Hprov; done). auto.
  - rewrite (handler_configured rt net stored) by done.
    rewrite (handler_configured rt net stored') by (rewrite Hprov; done).
    rewrite Hprov, Hkey, Hmodel, Hrag.
    destruct (truthy _ && negb _); [auto|].
    destruct (ragEnabledOf stored); [|auto].
    unfold bind. rewrite Hctx.
    unfold ret. rewrite !respond_run. simpl. auto.
Qed.

Lemma irrelevant_snippets_change_nothing_witness :
  getRagContext exampleRuntime
    (answering (searchResults [{| title := "a"; content := "A"; similarity := 49 # 100 |}]))
    "What is a GDG?" initial
  = (Normal EmptyString,
     {| fetched := [searchRequest exampleRuntime "What is a GDG?"]; sent := [] |}).
Proof.
  refine (proj1 (irrelevant_snippets_change_nothing exampleRuntime
                   (answering (searchResults
                      [{| title := "a"; content := "A"; similarity := 49 # 100 |}]))
                   [] {| recentCaptions := "What is a GDG?" |}
                   _ _ (List.map snippetValue
                          [{| title := "a"; content := "A"; similarity := 49 # 100 |}])
                   [{| title := "a"; content := "A"; similarity := 49 # 100 |}]
                   eq_refl eq_refl eq_refl eq_refl _ eq_refl)).
  repeat constructor; eexists; repeat split; reflexivity.
Defined.

(** *** The model name of Gemini *)

Lemma substring_all (m : string) : String.substring 0 (String.length m) m = m.
Proof. induction m as [|c m IH]; simpl; [done | by rewrite IH]. Qed.

(** X13.  The Gemini adapter takes a model name with or without the
    leading "models/": for a name [m] that does not itself start with
    "models/", the calls for "models/m" and for [m] are the same, request
    for request and result for result. *)
Theorem gemini_accepts_both_model_spellings rt net apiKey (m : string) systemPrompt
    (Hplain : String.prefix "models/" m = false) :
  callGemini rt net apiKey (Str ("models/" ++ m)) systemPrompt
  = callGemini rt net apiKey (Str m) systemPrompt
  /\ stripModelsPrefix (Str ("models/" ++ m)) = Normal m.
Proof.
  assert (Hstrip : stripModelsPrefix (Str ("models/" ++ m)) = Normal m).
  { unfold stripModelsPrefix. simpl. change (EmptyString ++ m) with m.
    replace (String.prefix EmptyString m) with true by (by destruct m).
    by rewrite Nat.sub_0_r, substring_all. }
  split; [|done].
  unfold callGemini. rewrite Hstrip.
  unfold stripModelsPrefix. by rewrite Hplain.
Qed.

Lemma gemini_accepts_both_model_spellings_witness :
  callGemini exampleRuntime unreachable (Str "AIza") (Str "models/gemini-2.5-flash") "Hello"
  = callGemini exampleRuntime unreachable (Str "AIza") (Str "gemini-2.5-flash") "Hello".
Proof.
  exact (proj1 (gemini_accepts_both_model_spellings exampleRuntime unreachable (Str "AIza")
                  "gemini-2.5-flash" "Hello" eq_refl)).
Defined.

(** *** The connection test *)

(** X14.  [handleTestConnection] answers every payload: whatever the
    provider (a value the switch does not know goes to the OpenAI
    adapter), model, key and network, it never throws, makes at most one
    request and calls [sendResponse] exactly once, with
    [{ success: false, error }] holding a non-empty text or with
    [{ success: true, message }]. *)
Theorem test_connection_always_answers rt net (payload : list (string * value)) :
  exists requests result,
    handleTestConnection rt net payload initial
    = (Normal tt, {| fetched := requests; sent := [result] |})
    /\ (length requests <= 1)%nat
    /\ ((exists msg, result = Obj [("success", Bool false); ("error", Str msg)]
                     /\ truthy (Str msg) = true)
        \/ (exists text, result = Obj [("success", Bool true); ("message", text)])).
Proof.
  unfold handleTestConnection. rewrite !get_stored. run_binds.
  set (provider := storedValue payload "provider").
  set (model := storedValue payload "model").
  set (apiKey := storedValue payload "apiKey").
  destruct (dispatch_oneRequest rt net provider apiKey model "Say 'OK' if you can hear me."
              initial) as (requests & Hw & Hlen & _ & _).
  pose proof (adapters_shape rt net provider apiKey model "Say 'OK' if you can hear me." initial)
    as Hshape.
  unfold try_catch, bind.
  destruct (dispatch rt net provider apiKey model "Say 'OK' if you can hear me." initial)
    as [[v|e] w1]; simpl in Hw, Hshape; subst w1.
  - destruct Hshape as [(msg & -> & Hmsg) | (text & ->)].
    + unfold lift. simpl get. cbv iota beta. rewrite Hmsg.
      exists requests. eexists. split; [reflexivity|]. split; [done|]. left. by eexists.
    + exists requests. eexists. split; [reflexivity|]. split; [done|]. right. by eexists.
  - exists requests. eexists. split; [reflexivity|]. split; [done|]. left.
    eexists. split; [reflexivity | apply truthy_prefixed].
Qed.

(** *** From the handler to the sidebar *)

Lemma onGenerateReply_result rt (v : value) :
  GenerationResult v ->
  if convertible (propertyOf v "text")
  then exists message type,
         onGenerateReply rt false v = Normal (AddMessage message type)
         /\ (type = "error" \/ type = "normal" \/ type = "rag")
  else onGenerateReply rt false v = Throw notConvertible.
Proof.
  intros [msg Hmsg | text | text Htext]; unfold onGenerateReply.
  - change (get (errorResult msg) "error") with (Normal (Str msg)).
    change (propertyOf (errorResult msg) "text") with Undefined.
    unfold cbind. rewrite Hmsg. eexists _, _. split; [reflexivity | auto].
  - change (propertyOf (textResult text) "text") with text.
    change (get (textResult text) "error") with (Normal Undefined).
    change (get (textResult text) "usedRag") with (Normal Undefined).
    change (get (textResult text) "text") with (Normal text).
    unfold cbind, ToString. cbn [truthy].
    destruct (convertible text); [|done]. eexists _, _. split; [reflexivity | auto].
  - change (propertyOf (set (textResult text) "usedRag" (Bool true)) "text") with text.
    change (get (set (textResult text) "usedRag" (Bool true)) "error") with (Normal Undefined).
    change (get (set (textResult text) "usedRag" (Bool true)) "usedRag")
      with (Normal (Bool true)).
    change (get (set (textResult text) "usedRag" (Bool true)) "text") with (Normal text).
    unfold cbind, ToString. cbn [truthy].
    destruct (convertible text); [|done]. eexists _, _. split; [reflexivity | auto].
Qed.

(** X15.  With a configured provider, one click on the trigger ends in
    at most one line added to the sidebar's history.  The handler sends
    one result.  Given that result, the sidebar's callback adds exactly
    one message, of type "error", "normal" or "rag", whenever the
    result's [text] converts to a string; a [text] that does not convert
    (an object with an own [toString] property, which the JSON of a
    provider can hold) makes the callback throw a [TypeError] on
    [prefix + response.text], and no message is added. *)
Theorem configured_trigger_adds_at_most_one_message rt net stored payload
    (Hconfig : nullish (propertyOf PROVIDERS_CONFIG (toString rt (providerOf stored))) = false) :
  exists result requests,
    handleGenerateResponse rt net stored payload initial
    = (Normal tt, {| fetched := requests; sent := [result] |})
    /\ if convertible (propertyOf result "text")
       then exists message type,
              onGenerateReply rt false result = Normal (AddMessage message type)
              /\ (type = "error" \/ type = "normal" \/ type = "rag")
       else onGenerateReply rt false result = Throw notConvertible.
Proof.
  rewrite handler_configured by done.
  assert (Hsent : exists result requests,
            (if truthy (propertyOf (propertyOf PROVIDERS_CONFIG
                                      (toString rt (providerOf stored))) "requiresKey")
                && negb (truthy (apiKeyOf rt stored))
             then sendResponse (errorResult ("No API Key found for "
                    ++ toString rt (propertyOf (propertyOf PROVIDERS_CONFIG
                                                  (toString rt (providerOf stored))) "name")
                    ++ ". Please open extension settings."))
             else bind (if ragEnabledOf stored
                        then getRagContext rt net (recentCaptions payload)
                        else ret EmptyString)
                    (fun ragContext =>
                       respond rt net (providerOf stored) (apiKeyOf rt stored)
                         (modelOf stored (propertyOf PROVIDERS_CONFIG
                                            (toString rt (providerOf stored))))
                         ragContext payload)) initial
            = (Normal tt, {| fetched := requests; sent := [result] |})
            /\ GenerationResult result).
  { destruct (truthy _ && negb _).
    - eexists _, _. split; [reflexivity|]. by constructor.
    - unfold bind.
      destruct (contextFor_run rt net stored payload) as (ragContext & searches & -> & _).
      rewrite respond_run. simpl. eexists _, _. split; [reflexivity|].
      apply outcomeOf_result. apply adapters_shape. }
  destruct Hsent as (result & requests & Hrun & Hresult).
  exists result, requests. split; [done|]. by apply onGenerateReply_result.
Qed.

Lemma configured_trigger_adds_at_most_one_message_witness :
  exists result requests,
    handleGenerateResponse exampleRuntime
      (answering (Obj [("choices",
                        Arr [Obj [("message",
                                   Obj [("content", Obj [("toString", Num (Finite 1))])])]])]))
      [("provider", Str "groq"); ("apiKeys", Obj [("groq", Str "gsk_1")]);
       ("ragEnabled", Bool false)]
      {| recentCaptions := "What is a GDG?" |} initial
    = (Normal tt, {| fetched := requests; sent := [result] |})
    /\ result = textResult (Obj [("toString", Num (Finite 1))])
    /\ onGenerateReply exampleRuntime false result = Throw notConvertible.
Proof.
  destruct (configured_trigger_adds_at_most_one_message exampleRuntime
              (answering (Obj [("choices",
                                Arr [Obj [("message",
                                           Obj [("content",
                                                 Obj [("toString", Num (Finite 1))])])]])]))
              [("provider", Str "groq"); ("apiKeys", Obj [("groq", Str "gsk_1")]);
               ("ragEnabled", Bool false)]
              {| recentCaptions := "What is a GDG?" |} eq_refl)
    as (result & requests & Hrun & Hreply).
  assert (Hresult : result = textResult (Obj [("toString", Num (Finite 1))])).
  { vm_compute in Hrun. injection Hrun as _ Hsent. symmetry. exact Hsent. }
  subst result. exists (textResult (Obj [("toString", Num (Finite 1))])), requests.
  split; [exact Hrun|]. split; [reflexivity | exact Hreply].
Defined.

End ServiceFacts.

(* ===================================================================== *)
(** ** Facts about the knowledge-base handlers                            *)
(* ===================================================================== *)

Module DocumentsFacts.

Import Js Worker Scenario Documents WorkerFacts ServiceFacts.
#[local] Open Scope list_scope.

(** *** Chunking *)

Lemma dotRun_split (n : nat) (s : jsstring) :
  fst (dotRun n s) ++ snd (dotRun n s) = s
  /\ (length (fst (dotRun n s)) <= n)%nat
  /\ forallb (fun c => negb (isLineTerminator c)) (fst (dotRun n s)) = true.
Proof.
  revert s. induction n as [|n IH]; intros s; [by destruct s|].
  destruct s as [|c s]; [simpl; repeat split; lia|]. simpl.
  destruct (isLineTerminator c) eqn:Hc; [simpl; repeat split; lia|].
  specialize (IH s). destruct (dotRun n s) as [run rest]. simpl in *.
  destruct IH as (Happ & Hlen & Hall). rewrite Happ, Hc, Hall. repeat split. lia.
Qed.

Lemma dotRun_nonempty (n : nat) (c : N) (s : jsstring) :
  isLineTerminator c = false ->
  exists run, fst (dotRun (S n) (c :: s)) = c :: run.
Proof.
  intros Hc. simpl. rewrite Hc. destruct (dotRun n s) as [run rest]. by exists run.
Qed.

(** A run over text without line terminators is a plain slice. *)
Lemma dotRun_plain (n : nat) (s : jsstring) :
  forallb (fun c => negb (isLineTerminator c)) s = true ->
  dotRun n s = (take n s, drop n s).
Proof.
  revert s. induction n as [|n IH]; intros s Hs; [by destruct s|].
  destruct s as [|c s]; [done|]. simpl in *.
  apply andb_true_iff in Hs as [Hc Hs]. apply negb_true_iff in Hc.
  by rewrite Hc, (IH s Hs).
Qed.

Lemma scanChunks_spec (fuel : nat) (s : jsstring) :
  (length s <= fuel)%nat ->
  concat (scanChunks fuel s) = List.filter (fun c => negb (isLineTerminator c)) s
  /\ Forall goodChunk (scanChunks fuel s).
Proof.
  revert s. induction fuel as [|fuel IH]; intros s Hlen.
  - destruct s; [done | simpl in Hlen; lia].
  - destruct s as [|c s]; [done|].
    cbn [scanChunks]. destruct (isLineTerminator c) eqn:Hc.
    + simpl List.filter. rewrite Hc. simpl. apply IH. simpl in Hlen. lia.
    + destruct (dotRun_nonempty 499 c s Hc) as [run Hrun].
      destruct (dotRun_split 500 (c :: s)) as (Happ & Hrunlen & Hall).
      change (S 499) with 500%nat in Hrun.
      destruct (dotRun 500 (c :: s)) as [run' rest]. cbn [fst snd] in *. subst run'.
      assert (Hrest : (length rest <= fuel)%nat).
      { apply (f_equal (@length N)) in Happ. rewrite length_app in Happ.
        cbn [length] in *. lia. }
      destruct (IH rest Hrest) as [Hcat Hgood]. split.
      * cbn [concat]. rewrite Hcat, <- Happ, List.filter_app. f_equal.
        clear -Hall. induction (c :: run) as [|x l IHl]; [done|].
        cbn [forallb List.filter] in *.
        apply andb_true_iff in Hall as [Hx Hl]. rewrite Hx. f_equal. by apply IHl.
      * constructor; [|done]. split; [cbn [length] in *; lia | done].
Qed.

Lemma chunks_shape (content : jsstring) :
  concat (chunksOf content) = List.filter (fun c => negb (isLineTerminator c)) content
  /\ Forall goodChunk (chunksOf content).
Proof. apply scanChunks_spec. lia. Qed.

(** X16.  Chunking for the cloud store loses nothing but line
    terminators: the chunks, put end to end, are the content with its
    line terminators removed, and every chunk has between 1 and 500 code
    units, none of them a line terminator.  Content made of line
    terminators only, or empty, gives no chunk. *)
Theorem chunks_partition_content (content : jsstring) :
  concat (chunksOf content) = List.filter (fun c => negb (isLineTerminator c)) content
  /\ Forall goodChunk (chunksOf content).
Proof. apply scanChunks_spec. lia. Qed.

Lemma scanChunks_plain (fuel : nat) (s : jsstring) :
  forallb (fun c => negb (isLineTerminator c)) s = true ->
  (length s <= fuel)%nat ->
  length (scanChunks fuel s) = ((length s + 499) / 500)%nat
  /\ (forall i chunk, scanChunks fuel s !! i = Some chunk ->
      chunk = take 500 (drop (500 * i) s)).
Proof.
  revert s. induction fuel as [|fuel IH]; intros s Hplain Hlen.
  - destruct s; [done | simpl in Hlen; lia].
  - destruct s as [|c s]; [done|].
    cbn [scanChunks].
    assert (Hc : isLineTerminator c = false).
    { cbn [forallb] in Hplain. apply andb_true_iff in Hplain as [Hc _].
      by apply negb_true_iff in Hc. }
    rewrite Hc, (dotRun_plain 500 (c :: s) Hplain).
    assert (Hrest : forallb (fun c => negb (isLineTerminator c)) (drop 500 (c :: s)) = true).
    { pose proof Hplain as Hboth. rewrite <- (take_drop 500 (c :: s)) in Hboth.
      rewrite forallb_app in Hboth. by apply andb_true_iff in Hboth as [_ Hboth]. }
    assert (Hdrop : length (drop 500 (c :: s)) = (length (c :: s) - 500)%nat)
      by apply length_drop.
    destruct (IH (drop 500 (c :: s)) Hrest) as [Hcount Hslices].
    { rewrite Hdrop. cbn [length] in *. lia. }
    split.
    + cbn [length] in *. rewrite Hcount, Hdrop.
      destruct (Nat.le_gt_cases 500 (S (length s))) as [Hbig | Hsmall].
      * replace (S (length s) + 499)%nat
          with ((S (length s) - 500 + 499) + 1 * 500)%nat by lia.
        rewrite Nat.div_add by lia. lia.
      * replace (S (length s) - 500)%nat with 0%nat by lia.
        replace (S (length s) + 499)%nat with (length s + 1 * 500)%nat by lia.
        rewrite Nat.div_add by lia.
        rewrite (Nat.div_small (0 + 499)), (Nat.div_small (length s)) by lia. lia.
    + intros [|i] chunk Hi.
      * simpl in Hi. injection Hi as <-. by rewrite Nat.mul_0_r, drop_0.
      * cbn [lookup list_lookup] in Hi. apply Hslices in Hi.
        rewrite drop_drop in Hi. by replace (500 * S i)%nat with (500 + 500 * i)%nat by lia.
Qed.

(** X17.  Content without line terminators is cut into consecutive
    slices of 500 code units: chunk [i] is units [500 i] to
    [500 i + 499] (the last one may be shorter), and a content of [n]
    units gives [n / 500] rounded up chunks. *)
Theorem plain_content_is_sliced (content : jsstring)
    (Hplain : forallb (fun c => negb (isLineTerminator c)) content = true) :
  length (chunksOf content) = ((length content + 499) / 500)%nat
  /\ (forall i chunk, chunksOf content !! i = Some chunk ->
      chunk = take 500 (drop (500 * i) content))
  /\ concat (chunksOf content) = content.
Proof.
  destruct (scanChunks_plain (length content) content Hplain (le_n _)) as [Hcount Hslices].
  split; [done|]. split; [done|].
  rewrite (proj1 (chunks_shape content)).
  clear -Hplain. induction content as [|c content IH]; [done|].
  cbn [forallb List.filter] in *. apply andb_true_iff in Hplain as [Hc Hrest].
  rewrite Hc. f_equal. by apply IH.
Qed.

Lemma plain_content_is_sliced_witness :
  length (chunksOf (lit "COND=(4,LT) skips the step")) = 1%nat.
Proof.
  exact (proj1 (plain_content_is_sliced (lit "COND=(4,LT) skips the step") eq_refl)).
Defined.

(** *** Every handler answers *)

Ltac answered :=
  first [ exists []; eexists; rewrite app_nil_r; split; [reflexivity | simpl; lia]
        | eexists [_], _; split; [reflexivity | simpl; lia] ].

Ltac answers_once :=
  intros [f s]; unfold_run; simpl fetched; simpl sent; split_run; simpl; answered.

Lemma handleRagHealth_answersOnce enc net : answersOnce 1 (handleRagHealth enc net).
Proof. unfold handleRagHealth. answers_once. Qed.

Lemma handleRagSearch_answersOnce rt enc net payload :
  answersOnce 1 (handleRagSearch rt enc net payload).
Proof. unfold handleRagSearch. answers_once. Qed.

Lemma handleGetDocuments_answersOnce enc net cloud stored :
  answersOnce 1 (handleGetDocuments enc net cloud stored).
Proof. unfold handleGetDocuments. destruct cloud; answers_once. Qed.

Lemma handleDeleteDocument_answersOnce rt net cloud stored payload :
  answersOnce 1 (handleDeleteDocument rt net cloud stored payload).
Proof. unfold handleDeleteDocument. destruct cloud; answers_once. Qed.

Lemma handleAddDocument_answersOnce rt enc net cloud stored payload :
  answersOnce 1 (handleAddDocument rt enc net cloud stored payload).
Proof. unfold handleAddDocument. destruct cloud; answers_once. Qed.

Lemma handleCloudHealth_answersOnce cloud : answersOnce 0 (handleCloudHealth cloud).
Proof. unfold handleCloudHealth. destruct cloud; answers_once. Qed.

(** X18.  The handlers of the knowledge base always answer: once the
    stored settings are read, whatever they hold and whatever the
    payload, the network and the cloud module do, each handler returns
    without throwing, calls [sendResponse] exactly once and sends at most
    one request ([handleCloudHealth] none). *)
Theorem document_handlers_answer_once rt enc net cloud stored payload :
  answersOnce 1 (handleRagHealth enc net)
  /\ answersOnce 1 (handleRagSearch rt enc net payload)
  /\ answersOnce 1 (handleGetDocuments enc net cloud stored)
  /\ answersOnce 1 (handleDeleteDocument rt net cloud stored payload)
  /\ answersOnce 1 (handleAddDocument rt enc net cloud stored payload)
  /\ answersOnce 0 (handleCloudHealth cloud).
Proof.
  repeat split.
  - apply handleRagHealth_answersOnce.
  - apply handleRagSearch_answersOnce.
  - apply handleGetDocuments_answersOnce.
  - apply handleDeleteDocument_answersOnce.
  - apply handleAddDocument_answersOnce.
  - apply handleCloudHealth_answersOnce.
Qed.

(** *** The storage mode *)

Lemma cloudMode_stored (stored : list (string * value)) :
  cloudMode stored = true <-> assoc "storageMode" stored = Some (Str "cloud").
Proof.
  unfold cloudMode, or_else.
  destruct (assoc "storageMode" stored) as [v|]; cbn [default from_option id]; [|done].
  destruct v as [| |b|n|x|items|props]; try done.
  - by destruct b.
  - destruct n as [| |q]; cbn [truthy]; try done. by destruct (negb (Qeq_bool q 0)).
  - cbn [truthy]. destruct (String.eqb x EmptyString) eqn:Hx; cbn [negb strictEqStr].
    + apply String.eqb_eq in Hx as ->. done.
    + rewrite String.eqb_eq. split; [by intros -> | by intros [= ->]].
Qed.

(** X19.  With [storageMode] stored as ["cloud"], listing, deleting and
    adding a document send no request of the worker's own: each answers
    once and [fetch] is never called, whether the cloud module is loaded
    or not and whatever it returns. *)
Theorem cloud_mode_makes_no_request rt enc net cloud stored payload
    (Hmode : assoc "storageMode" stored = Some (Str "cloud")) :
  answersOnce 0 (handleGetDocuments enc net cloud stored)
  /\ answersOnce 0 (handleDeleteDocument rt net cloud stored payload)
  /\ answersOnce 0 (handleAddDocument rt enc net cloud stored payload).
Proof.
  apply cloudMode_stored in Hmode.
  unfold handleGetDocuments, handleDeleteDocument, handleAddDocument. rewrite Hmode.
  repeat split; destruct cloud; answers_once.
Qed.

Lemma cloud_mode_makes_no_request_witness :
  answersOnce 0 (handleGetDocuments asciiEncoding unreachable None
                   [("storageMode", Str "cloud")]).
Proof.
  exact (proj1 (cloud_mode_makes_no_request exampleRuntime asciiEncoding unreachable None
                  [("storageMode", Str "cloud")] Undefined eq_refl)).
Defined.

(** X20.  Any other stored [storageMode] (none, another text, a value
    that is not a string) selects the local server: listing the
    documents then sends exactly one request, a [GET] of
    [http://localhost:8000/documents]. *)
Theorem local_mode_lists_from_server enc net cloud stored w
    (Hmode : assoc "storageMode" stored <> Some (Str "cloud")) :
  fetched (snd (handleGetDocuments enc net cloud stored w))
  = fetched w ++ [{| url := "http://localhost:8000/documents"; method := "GET";
                     headers := []; body := None |}].
Proof.
  unfold handleGetDocuments.
  destruct (cloudMode stored) eqn:Hcloud; [by apply cloudMode_stored in Hcloud|].
  destruct w as [f s]. unfold_run. simpl fetched. simpl sent. by split_run.
Qed.

Lemma local_mode_lists_from_server_witness :
  fetched (snd (handleGetDocuments asciiEncoding unreachable None
                  [("storageMode", Str "Cloud")] initial))
  = [{| url := "http://localhost:8000/documents"; method := "GET";
        headers := []; body := None |}].
Proof.
  apply (local_mode_lists_from_server asciiEncoding unreachable None
           [("storageMode", Str "Cloud")] initial).
  simpl. congruence.
Defined.

(** *** Object spread *)

Lemma assoc_assign (key : string) (props : list (string * value)) (k : string) (v : value) :
  assoc key (assign props k v) = if String.eqb k key then Some v else assoc key props.
Proof.
  induction props as [|[k' x] rest IH]; cbn [assoc assign]; [done|].
  destruct (String.eqb k' k) eqn:Hk; cbn [assoc].
  - apply String.eqb_eq in Hk as ->. by destruct (String.eqb k key).
  - rewrite IH. destruct (String.eqb k' key) eqn:Hk'; [|done].
    apply String.eqb_eq in Hk' as ->. by rewrite String.eqb_sym, Hk.
Qed.

Lemma assoc_app (key : string) (l1 l2 : list (string * value)) :
  assoc key (l1 ++ l2)
  = match assoc key l1 with Some v => Some v | None => assoc key l2 end.
Proof.
  induction l1 as [|[k x] rest IH]; cbn [assoc app]; [done|].
  by destruct (String.eqb k key).
Qed.

(** In [{ ...target, ...source }] the last property of [source] with a
    given key wins, and [target] shows through for the other keys. *)
Lemma spread_lookup enc (target props : list (string * value)) (key : string) :
  assoc key (spread enc target (Obj props))
  = match assoc key (rev props) with Some v => Some v | None => assoc key target end.
Proof.
  unfold spread. cbn [ownEntries]. revert target.
  induction props as [|[k x] rest IH]; intros target; [done|].
  cbn [foldl fst snd rev]. rewrite IH, assoc_app, assoc_assign. cbn [assoc].
  destruct (assoc key (rev rest)); [done|]. by destruct (String.eqb k key).
Qed.

(** X21.  The health check, the search and the local listing pass the
    server's JSON object on without looking at the HTTP status: the
    answer has every property of that object (the last one for a
    repeated key) and [success: true] only where the object has no
    [success] of its own.  A reply with an error status and a JSON body
    is so reported as a success, and a body holding [success: false]
    overrides the flag. *)
Theorem server_data_is_passed_on rt enc net cloud stored payload query response props w
    (Hquery : get payload "query" = Normal query)
    (Hlocal : cloudMode stored = false)
    (Hnet : forall request, net request = Normal response)
    (Hjson : json response = Normal (Obj props)) :
  exists reply,
    (forall key, assoc key reply
                 = match assoc key (rev props) with
                   | Some v => Some v
                   | None => assoc key [("success", Bool true)]
                   end)
    /\ sent (snd (handleRagHealth enc net w)) = sent w ++ [Obj reply]
    /\ sent (snd (handleRagSearch rt enc net payload w)) = sent w ++ [Obj reply]
    /\ sent (snd (handleGetDocuments enc net cloud stored w)) = sent w ++ [Obj reply].
Proof.
  exists (spread enc [("success", Bool true)] (Obj props)).
  split; [intros key; apply spread_lookup|].
  unfold handleRagHealth, handleRagSearch, handleGetDocuments.
  rewrite Hquery, Hlocal. destruct w as [f s].
  unfold_run. simpl fetched. simpl sent. rewrite !Hnet, Hjson. done.
Qed.

Lemma server_data_is_passed_on_witness :
  exists reply,
    assoc "success" reply = Some (Bool true)
    /\ sent (snd (handleRagSearch exampleRuntime asciiEncoding
                    (erroring (Obj [("detail", Str "Internal Server Error")]))
                    (Obj [("query", Str "JCL")]) initial))
       = [Obj reply].
Proof.
  destruct (server_data_is_passed_on exampleRuntime asciiEncoding
              (erroring (Obj [("detail", Str "Internal Server Error")])) None []
              (Obj [("query", Str "JCL")]) (Str "JCL") _
              [("detail", Str "Internal Server Error")] initial
              eq_refl eq_refl (fun _ => eq_refl) eq_refl)
    as (reply & Hreply & _ & Hsearch & _).
  exists reply. split; [by rewrite Hreply | exact Hsearch].
Defined.

(** *** Deleting *)

Lemma truthy_or_else (a b : value) : truthy b = true -> truthy (or_else a b) = true.
Proof. intros Hb. unfold or_else. by destruct (truthy a) eqn:Ha. Qed.

(** X22.  Deleting on the local server reports [response.ok]: once the
    title is read, converted to a string and encoded, and the request is
    answered, exactly one [DELETE] of [/documents/<encoded title>] is
    sent and the answer's [success] is [response.ok].  On success the body is not read and the
    answer is [{ success: true }] alone; on failure the answer carries a
    non-empty [error], also when the body is not JSON. *)
Theorem delete_reports_response_ok rt net cloud stored payload title encoded response w
    (Hlocal : cloudMode stored = false)
    (Htitle : get payload "title" = Normal title)
    (Hencoded : cbind (ToString rt title) (encodeURIComponent rt) = Normal encoded)
    (Hnet : net {| url := SERVER_URL ++ "/documents/" ++ encoded; method := "DELETE";
                   headers := []; body := None |} = Normal response) :
  exists result,
    handleDeleteDocument rt net cloud stored payload w
    = (Normal tt,
       {| fetched := fetched w ++ [{| url := SERVER_URL ++ "/documents/" ++ encoded;
                                      method := "DELETE"; headers := []; body := None |}];
          sent := sent w ++ [Obj result] |})
    /\ assoc "success" result = Some (Bool (ok response))
    /\ (ok response = true -> result = [("success", Bool true)])
    /\ (ok response = false ->
        exists error, assoc "error" result = Some error /\ truthy error = true).
Proof.
  unfold handleDeleteDocument. rewrite Hlocal, Htitle. run_binds.
  destruct (ToString rt title) as [titleText|e] eqn:Hconverted; [|done].
  cbn [cbind] in Hencoded. run_binds.
  rewrite Hencoded. run_binds. destruct w as [f s].
  unfold_run. simpl fetched. simpl sent. rewrite Hnet.
  destruct (ok response); cbn [negb].
  - eexists. split; [reflexivity|]. split; [done|]. split; [done|]. done.
  - destruct (json response) as [data|e].
    + destruct (get data "detail") as [detail|e].
      * eexists. split; [reflexivity|]. split; [done|]. split; [done|].
        intros _. eexists. split; [reflexivity|]. by apply truthy_or_else.
      * eexists. split; [reflexivity|]. split; [done|]. split; [done|].
        intros _. by eexists.
    + eexists. split; [reflexivity|]. split; [done|]. split; [done|].
      intros _. by eexists.
Qed.

Lemma delete_reports_response_ok_witness :
  exists result,
    sent (snd (handleDeleteDocument exampleRuntime
                 (erroring (Obj [("detail", Str "Document not found")])) None []
                 (Obj [("title", Str "JCL notes")]) initial))
    = [Obj result]
    /\ assoc "success" result = Some (Bool false).
Proof.
  destruct (delete_reports_response_ok exampleRuntime
              (erroring (Obj [("detail", Str "Document not found")])) None []
              (Obj [("title", Str "JCL notes")]) (Str "JCL notes") "JCL notes" _ initial
              eq_refl eq_refl eq_refl eq_refl) as (result & Hrun & Hsuccess & _).
  exists result. split; [by rewrite Hrun | exact Hsuccess].
Defined.

(** *** Adding to the cloud *)

Lemma or_else_same (v : value) : or_else v v = v.
Proof. unfold or_else. by destruct (truthy v). Qed.

(** X23.  Adding a document in cloud mode, with [CloudDB.saveDocument]
    as [cloud-db.js] defines it: for a payload whose [content] is a
    string, the worker sends no request and answers once, with
    [{ success: true, chunks }] where [chunks] is the number of chunks it
    cut the content into (also when that number is 0), or, when the
    write fails, with [{ success: false, error }] where [error] is the
    failure's message, or ["Failed to save to cloud"] if that message is
    empty. *)
Theorem cloud_add_reports_chunk_count rt enc net stored payload title content db
    initFirebase setDoc w
    (Hmode : cloudMode stored = true)
    (Htitle : get payload "title" = Normal title)
    (Hcontent : get payload "content" = Normal (Str content))
    (Hsave : saveDocument db = saveDocumentOf enc initFirebase setDoc) :
  let chunks := chunksOf (codeUnits enc content) in
  let written :=
    cbind initFirebase (fun _ =>
      setDoc title (Str content) (Arr (map (fun c => Str (fromCodeUnits enc c)) chunks))) in
  handleAddDocument rt enc net (Some db) stored payload w
  = (Normal tt,
     {| fetched := fetched w;
        sent := sent w ++ [match written with
                           | Normal _ =>
                               Obj [("success", Bool true); ("chunks", count (length chunks))]
                           | Throw error =>
                               Obj [("success", Bool false);
                                    ("error", or_else (Str (message error))
                                                (Str "Failed to save to cloud"))]
                           end] |}).
Proof.
  intros chunks written. subst written.
  unfold handleAddDocument. rewrite Hmode, Hcontent. run_binds.
  cbn [contentChunks]. fold chunks. run_binds. rewrite Htitle. run_binds.
  rewrite Hsave. unfold saveDocumentOf. cbn [lengthOf]. rewrite length_map.
  destruct w as [f s]. unfold_run. simpl fetched. simpl sent.
  destruct initFirebase as [[]|error]; cbn [cbind]; [|done].
  destruct (setDoc _ _ _) as [[]|error]; cbn [cbind]; [|done].
  change (get (Obj ?props) ?key) with (Normal (default Undefined (assoc key props))).
  cbn [assoc String.eqb Ascii.eqb Bool.eqb default from_option id truthy].
  fold (count (length chunks)). by rewrite or_else_same.
Qed.

Lemma cloud_add_reports_chunk_count_witness :
  sent (snd (handleAddDocument exampleRuntime asciiEncoding unreachable
               (Some {| saveDocument :=
                          saveDocumentOf asciiEncoding (Normal tt) (fun _ _ _ => Normal tt);
                        getDocuments := Normal Undefined;
                        deleteDocument := fun _ => Normal Undefined;
                        healthCheck := Normal Undefined |})
               [("storageMode", Str "cloud")]
               (Obj [("title", Str "JCL"); ("content", Str "COND=(4,LT) skips the step")])
               initial))
  = [Obj [("success", Bool true); ("chunks", count 1)]].
Proof.
  rewrite (cloud_add_reports_chunk_count exampleRuntime asciiEncoding unreachable
             [("storageMode", Str "cloud")]
             (Obj [("title", Str "JCL"); ("content", Str "COND=(4,LT) skips the step")])
             (Str "JCL") "COND=(4,LT) skips the step"
             {| saveDocument :=
                  saveDocumentOf asciiEncoding (Normal tt) (fun _ _ _ => Normal tt);
                getDocuments := Normal Undefined;
                deleteDocument := fun _ => Normal Undefined;
                healthCheck := Normal Undefined |}
             (Normal tt) (fun _ _ _ => Normal tt) initial
             eq_refl eq_refl eq_refl eq_refl).
  reflexivity.
Defined.

(** *** Copying to the cloud *)

Lemma localDocuments_run nets w :
  exists localDocs,
    localDocuments nets w
    = (Normal localDocs,
       {| fetched := fetched w ++ [simpleGet (SERVER_URL ++ "/documents")];
          sent := sent w |}).
Proof.
  destruct w as [f s]. unfold localDocuments, fetchAt. unfold_run. simpl fetched. simpl sent.
  split_run; by eexists.
Qed.

(** A round on an entry whose title cannot be read or converted throws
    out of its own [catch] block, before any request. *)
Lemma syncDocument_untitled rt nets db doc w :
  titled doc = false -> exists e, syncDocument rt nets db doc w = (Throw e, w).
Proof.
  unfold titled, syncDocument. intros Hdoc.
  destruct (get doc "title") as [title|e]; [|by exists e].
  run_binds. unfold ToString. rewrite Hdoc. by eexists.
Qed.

(** A round on any other entry completes, with at most one request, and
    with one when it counts the entry. *)
Lemma syncDocument_titled rt nets db doc w :
  titled doc = true ->
  exists synced requests,
    syncDocument rt nets db doc w
    = (Normal synced, {| fetched := fetched w ++ requests; sent := sent w |})
    /\ (length requests <= 1)%nat
    /\ (synced = true -> length requests = 1%nat).
Proof.
  unfold titled, syncDocument, fetchAt. intros Hdoc.
  destruct (get doc "title") as [title|e]; [|done].
  run_binds. unfold ToString. rewrite Hdoc. run_binds.
  destruct w as [f s]. unfold_run. simpl fetched. simpl sent.
  split_run;
    first [ eexists _, []; rewrite app_nil_r; split; [reflexivity | split; [simpl; lia | done]]
          | eexists _, [_]; split; [reflexivity | split; [simpl; lia | done]] ].
Qed.

Lemma syncLoop_titled rt nets db docs :
  forallb titled docs = true ->
  forall i n w,
    exists m requests,
      syncLoop rt nets db i docs n w
      = (Normal m, {| fetched := fetched w ++ requests; sent := sent w |})
      /\ (n <= m)%nat /\ (m <= n + length requests)%nat
      /\ (length requests <= length docs)%nat.
Proof.
  induction docs as [|doc docs IH]; intros Hdocs i n w.
  - exists n, []. rewrite app_nil_r. destruct w. simpl. repeat split; lia.
  - cbn [forallb] in Hdocs. apply andb_true_iff in Hdocs as [Hdoc Hdocs].
    destruct (syncDocument_titled rt nets (db i) doc w Hdoc)
      as (synced & requests1 & Hrun1 & Hlen1 & Hsynced).
    cbn [syncLoop]. unfold bind at 1. rewrite Hrun1.
    destruct (IH Hdocs (S i) (if synced then S n else n)
                {| fetched := fetched w ++ requests1; sent := sent w |})
      as (m & requests2 & Hrun2 & Hlow & Hhigh & Hlen2).
    exists m, (requests1 ++ requests2). rewrite Hrun2. cbn [fetched sent].
    rewrite app_assoc, length_app. cbn [length].
    split; [done|]. destruct synced; [specialize (Hsynced eq_refl)|]; repeat split; lia.
Qed.

Lemma syncLoop_untitled rt nets db docs :
  forallb titled docs = false ->
  forall i n w,
    exists e requests,
      syncLoop rt nets db i docs n w
      = (Throw e, {| fetched := fetched w ++ requests; sent := sent w |})
      /\ (length requests <= length docs)%nat.
Proof.
  induction docs as [|doc docs IH]; intros Hdocs i n w; [done|].
  cbn [forallb] in Hdocs. cbn [syncLoop]. unfold bind at 1.
  destruct (titled doc) eqn:Hdoc.
  - destruct (syncDocument_titled rt nets (db i) doc w Hdoc)
      as (synced & requests1 & -> & Hlen1 & _).
    destruct (IH Hdocs (S i) (if synced then S n else n)
                {| fetched := fetched w ++ requests1; sent := sent w |})
      as (e & requests2 & -> & Hlen2).
    exists e, (requests1 ++ requests2). cbn [fetched sent].
    rewrite app_assoc, length_app. split; [done | simpl; lia].
  - destruct (syncDocument_untitled rt nets (db i) doc w Hdoc) as [e ->].
    exists e, []. rewrite app_nil_r. destruct w. split; [done | simpl; lia].
Qed.

(** X24.  [handleCloudSyncAll] always answers: whatever the local
    server, the listed documents and the cloud module do, it returns
    without throwing and calls [sendResponse] exactly once, either with
    [{ success: false, error }] or with [{ success: true, documents: n }]
    where [n] is less than the number of requests it sent: one for the
    list, and one for every document it counts. *)
Theorem sync_all_answers_once rt enc nets cloud w :
  exists requests result,
    handleCloudSyncAll rt enc nets cloud w
    = (Normal tt, {| fetched := fetched w ++ requests; sent := sent w ++ [result] |})
    /\ ((exists msg, result = Obj [("success", Bool false); ("error", Str msg)])
        \/ (exists n, result = Obj [("success", Bool true); ("documents", count n)]
                      /\ (n < length requests)%nat)).
Proof.
  unfold handleCloudSyncAll. destruct cloud as [db|].
  - destruct (localDocuments_run nets w) as [localDocs Hlist].
    unfold try_catch, bind at 1. rewrite Hlist. unfold bind at 1, lift at 1.
    destruct (iterate enc localDocs) as [docs|e].
    + unfold bind at 1.
      destruct (forallb titled docs) eqn:Hdocs.
      * destruct (syncLoop_titled rt nets db docs Hdocs 0%nat 0%nat
                    {| fetched := fetched w ++ [simpleGet (SERVER_URL ++ "/documents")];
                       sent := sent w |})
          as (m & requests & -> & _ & Hhigh & _).
        exists (simpleGet (SERVER_URL ++ "/documents") :: requests). eexists.
        cbn [fetched sent sendResponse]. rewrite <- app_assoc.
        split; [reflexivity|]. right. exists m. split; [done | simpl in *; lia].
      * destruct (syncLoop_untitled rt nets db docs Hdocs 0%nat 0%nat
                    {| fetched := fetched w ++ [simpleGet (SERVER_URL ++ "/documents")];
                       sent := sent w |})
          as (e & requests & -> & _).
        exists (simpleGet (SERVER_URL ++ "/documents") :: requests). eexists.
        cbn [fetched sent sendResponse]. rewrite <- app_assoc.
        split; [reflexivity|]. left. by eexists.
    + exists [simpleGet (SERVER_URL ++ "/documents")]. eexists.
      split; [reflexivity|]. left. by eexists.
  - exists []. eexists. rewrite app_nil_r. destruct w.
    split; [reflexivity|]. left. by eexists.
Qed.

(** X25.  When the local server lists an array of documents, the sync
    succeeds exactly when the title of every entry can be read and
    converted to a string, that is, when no entry is [null] or
    [undefined] and no title is an object or array that [ToString]
    rejects.  It then reports a count that is at most the number of
    entries, a document that cannot be fetched or saved being skipped.
    With an entry of the other kind it answers
    [{ success: false, error }], because the [catch] block of the round
    evaluates [doc.title] in its log line and throws again.  In both
    cases it sends at most one request per entry after the list request. *)
Theorem sync_all_needs_every_entry rt enc nets db response data items w
    (Hnet : nets (length (fetched w)) (simpleGet (SERVER_URL ++ "/documents"))
            = Normal response)
    (Hok : ok response = true)
    (Hjson : json response = Normal data)
    (Hdocs : get data "documents" = Normal (Arr items)) :
  exists requests result,
    handleCloudSyncAll rt enc nets (Some db) w
    = (Normal tt, {| fetched := fetched w ++ requests; sent := sent w ++ [result] |})
    /\ (length requests <= 1 + length items)%nat
    /\ if forallb titled items
       then exists n, result = Obj [("success", Bool true); ("documents", count n)]
                      /\ (n <= length items)%nat
       else exists msg, result = Obj [("success", Bool false); ("error", Str msg)].
Proof.
  assert (Hlist : localDocuments nets w
                  = (Normal (Arr items),
                     {| fetched := fetched w ++ [simpleGet (SERVER_URL ++ "/documents")];
                        sent := sent w |})).
  { destruct w as [f s]. unfold localDocuments, fetchAt. unfold_run.
    simpl fetched in *. simpl sent. by rewrite Hnet, Hok, Hjson, Hdocs. }
  unfold handleCloudSyncAll, try_catch, bind at 1. rewrite Hlist.
  unfold bind at 1, lift at 1. cbn [iterate]. unfold bind at 1.
  destruct (forallb titled items) eqn:Hitems.
  - destruct (syncLoop_titled rt nets db items Hitems 0%nat 0%nat
                {| fetched := fetched w ++ [simpleGet (SERVER_URL ++ "/documents")];
                   sent := sent w |})
      as (m & requests & -> & _ & Hhigh & Hlen).
    exists (simpleGet (SERVER_URL ++ "/documents") :: requests). eexists.
    cbn [fetched sent sendResponse]. rewrite <- app_assoc.
    split; [reflexivity|]. split; [simpl; lia|]. exists m. split; [done | simpl in *; lia].
  - destruct (syncLoop_untitled rt nets db items Hitems 0%nat 0%nat
                {| fetched := fetched w ++ [simpleGet (SERVER_URL ++ "/documents")];
                   sent := sent w |})
      as (e & requests & -> & Hlen).
    exists (simpleGet (SERVER_URL ++ "/documents") :: requests). eexists.
    cbn [fetched sent sendResponse]. rewrite <- app_assoc.
    split; [reflexivity|]. split; [simpl; lia|]. by eexists.
Qed.

Lemma sync_all_needs_every_entry_witness :
  exists msg,
    sent (snd (handleCloudSyncAll exampleRuntime asciiEncoding
                 (fun _ => answering
                    (Obj [("documents",
                           Arr [Obj [("title", Str "JCL")];
                                Obj [("title", Obj [("toString", Num (Finite 1))])]])]))
                 (Some (fun _ => resolving (Obj [("success", Bool true)]))) initial))
    = [Obj [("success", Bool false); ("error", Str msg)]].
Proof.
  destruct (sync_all_needs_every_entry exampleRuntime asciiEncoding
              (fun _ => answering
                 (Obj [("documents",
                        Arr [Obj [("title", Str "JCL")];
                             Obj [("title", Obj [("toString", Num (Finite 1))])]])]))
              (fun _ => resolving (Obj [("success", Bool true)])) _ _
              [Obj [("title", Str "JCL")];
               Obj [("title", Obj [("toString", Num (Finite 1))])]] initial
              eq_refl eq_refl eq_refl eq_refl)
    as (requests & result & Hrun & _ & Hresult).
  cbn [forallb titled get assoc String.eqb Ascii.eqb Bool.eqb default from_option id
         convertible andb] in Hresult.
  destruct Hresult as [msg ->].
  exists msg. by rewrite Hrun.
Defined.

(** X26.  With the local server unreachable, or answering the list
    request with an error status, the sync still reports success:
    nothing is copied, one request was sent, and the answer is
    [{ success: true, documents: 0 }]. *)
Theorem sync_all_without_local_server rt enc nets db w
    (Hdown : forall response,
        nets (length (fetched w)) (simpleGet (SERVER_URL ++ "/documents")) = Normal response ->
        ok response = false) :
  handleCloudSyncAll rt enc nets (Some db) w
  = (Normal tt,
     {| fetched := fetched w ++ [simpleGet (SERVER_URL ++ "/documents")];
        sent := sent w ++ [Obj [("success", Bool true); ("documents", count 0)]] |}).
Proof.
  unfold handleCloudSyncAll, localDocuments, fetchAt. destruct w as [f s].
  unfold_run. simpl fetched in *. simpl sent.
  destruct (nets (length f) (simpleGet (SERVER_URL ++ "/documents"))) as [response|e]; [|done].
  by rewrite (Hdown response eq_refl).
Qed.

Lemma sync_all_without_local_server_witness :
  sent (snd (handleCloudSyncAll exampleRuntime asciiEncoding (fun _ => unreachable)
               (Some (fun _ => resolving Undefined)) initial))
  = [Obj [("success", Bool true); ("documents", count 0)]].
Proof.
  rewrite (sync_all_without_local_server exampleRuntime asciiEncoding (fun _ => unreachable)
             (fun _ => resolving Undefined) initial).
  - reflexivity.
  - intros response H. discriminate H.
Defined.

End DocumentsFacts.
